(** * Restaurant booking model (models.py): tables, bookings, availability

    A shallow embedding of the three classes of [models.py].  Python objects
    are mutable and compared by identity ([Table] and [Booking] define no
    [__eq__]), so the embedding keeps an object store: a table or a booking
    is the address of its record in the store, and the lists held by the
    restaurant, the [table] attribute of a booking and the
    [current_booking] attribute of a table are addresses.

    Integers are Python's unbounded [int] (modelled by [Z]); a [datetime] is
    a point on a totally ordered time line (modelled by [Z], e.g. microseconds
    since the epoch), and where the code adds a [timedelta] to one, in
    [utils.py] and [main.py], the range of [datetime] and the
    [OverflowError] are modelled too; a [str] is a sequence of Unicode
    code points. *)

From stdpp Require Import base numbers option list strings.

Local Open Scope Z_scope.

(** ** Python values *)

(** A [str], as the list of its code points. *)
Abbreviation str := (list N).

(** The code points [str.strip()] removes: those for which [str.isspace]
    holds. *)
Definition isspace (c : N) : bool :=
  ((9 <=? c) && (c <=? 13) || (28 <=? c) && (c <=? 32)
   || (c =? 133) || (c =? 160) || (c =? 5760)
   || (8192 <=? c) && (c <=? 8202)
   || (c =? 8232) || (c =? 8233) || (c =? 8239) || (c =? 8287)
   || (c =? 12288))%N.

Fixpoint lstrip (s : str) : str :=
  match s with
  | c :: s' => if isspace c then lstrip s' else s
  | [] => []
  end.

Definition rstrip (s : str) : str := rev (lstrip (rev s)).

Definition strip (s : str) : str := rstrip (lstrip s).

(** Truth value of a [str]: the empty string is false. *)
Definition truthy (s : str) : bool :=
  match s with [] => false | _ :: _ => true end.

(** The test [not value or not value.strip()] of the name and phone
    setters. *)
Definition blank (value : str) : bool :=
  negb (truthy value) || negb (truthy (strip value)).

(** ** Exceptions *)

Inductive exn : Type :=
  | ValueError (msg : string).

Inductive result (A : Type) : Type :=
  | Ok (a : A)
  | Raise (e : exn).
Arguments Ok {A} a.
Arguments Raise {A} e.

Global Instance result_ret : MRet result := λ A, @Ok A.
Global Instance result_bind : MBind result := λ A B f r,
  match r with
  | Ok a => f a
  | Raise e => Raise e
  end.

Definition is_Ok {A} (r : result A) : Prop := ∃ a, r = Ok a.
Definition is_Raise {A} (r : result A) : Prop := ∃ e, r = Raise e.

(** ** Object references *)

Definition tref := nat.   (* address of a [Table] object *)
Definition bref := nat.   (* address of a [Booking] object *)

(** ** class Table *)

Record Table : Type := mkTable {
  table_id : Z;
  name : str;
  seats : Z;
  is_occupied : bool;
  current_booking : option bref
}.

Module Table_.

(** [Table.__init__] stores its arguments in the private attributes; it
    does not go through the [name] and [seats] setters. *)
Definition __init__ (table_id : Z) (name : str) (seats : Z) : Table :=
  mkTable table_id name seats false None.

Definition set_name (self : Table) (value : str) : result Table :=
  if blank value then Raise (ValueError "Table name cannot be empty")
  else Ok (mkTable (table_id self) (strip value) (seats self)
                   (is_occupied self) (current_booking self)).

Definition set_seats (self : Table) (value : Z) : result Table :=
  if value <=? 0 then Raise (ValueError "Number of seats must be positive")
  else Ok (mkTable (table_id self) (name self) value
                   (is_occupied self) (current_booking self)).

Definition occupy (self : Table) (booking : option bref) : Table :=
  mkTable (table_id self) (name self) (seats self) true booking.

Definition release (self : Table) : Table :=
  mkTable (table_id self) (name self) (seats self) false None.

End Table_.

(** ** class Booking *)

Record Booking : Type := mkBooking {
  booking_id : Z;
  guest_name : str;
  phone : str;
  table : tref;
  start_time : Z;
  end_time : Z;
  is_active : bool
}.

Module Booking_.

(** The checks of the four validating setters.  [now] is the value
    [datetime.now()] returns when the [start_time] setter runs. *)
Definition check_guest_name (value : str) : result str :=
  if blank value then Raise (ValueError "Guest name cannot be empty")
  else Ok (strip value).

Definition check_phone (value : str) : result str :=
  if blank value then Raise (ValueError "Phone cannot be empty")
  else Ok (strip value).

Definition check_start_time (now value : Z) : result Z :=
  if value <? now then Raise (ValueError "Start time cannot be in the past")
  else Ok value.

Definition check_end_time (start_time value : Z) : result Z :=
  if value <=? start_time
  then Raise (ValueError "End time must be after start time")
  else Ok value.

(** [Booking.__init__]: the attributes are assigned in the order
    [_booking_id], [guest_name], [phone], [_table], [start_time],
    [end_time], [_is_active]; the four public ones through their
    setters.  An exception leaves [__init__] at once, so no object is
    returned. *)
Definition __init__ (now : Z) (booking_id : Z) (guest_name phone : str)
    (table : tref) (start_time end_time : Z) : result Booking :=
  g ← check_guest_name guest_name;
  p ← check_phone phone;
  s ← check_start_time now start_time;
  e ← check_end_time s end_time;
  mret (mkBooking booking_id g p table s e true).

(** The setters on a constructed booking. *)
Definition set_guest_name (self : Booking) (value : str) : result Booking :=
  g ← check_guest_name value;
  mret (mkBooking (booking_id self) g (phone self) (table self)
                  (start_time self) (end_time self) (is_active self)).

Definition set_phone (self : Booking) (value : str) : result Booking :=
  p ← check_phone value;
  mret (mkBooking (booking_id self) (guest_name self) p (table self)
                  (start_time self) (end_time self) (is_active self)).

Definition set_start_time (now : Z) (self : Booking) (value : Z)
    : result Booking :=
  s ← check_start_time now value;
  mret (mkBooking (booking_id self) (guest_name self) (phone self)
                  (table self) s (end_time self) (is_active self)).

Definition set_end_time (self : Booking) (value : Z) : result Booking :=
  e ← check_end_time (start_time self) value;
  mret (mkBooking (booking_id self) (guest_name self) (phone self)
                  (table self) (start_time self) e (is_active self)).

(** The part of [cancel] that touches the booking itself. *)
Definition deactivate (self : Booking) : Booking :=
  mkBooking (booking_id self) (guest_name self) (phone self) (table self)
            (start_time self) (end_time self) false.

End Booking_.

(** ** The object store and class Restaurant *)

Record Restaurant : Type := mkRestaurant {
  _tables : list tref;
  _bookings : list bref;
  _next_table_id : Z;
  _next_booking_id : Z
}.

(** A state of the program: the [Table] objects and the [Booking] objects
    by address, and the attributes of the one [Restaurant] object.  A new
    object takes the next free address, the length of its store. *)
Record World : Type := mkWorld {
  table_objs : list Table;
  booking_objs : list Booking;
  restaurant : Restaurant
}.

Global Instance Table_inhabited : Inhabited Table :=
  populate (Table_.__init__ 0 [] 0).
Global Instance Booking_inhabited : Inhabited Booking :=
  populate (mkBooking 0 [] [] 0%nat 0 0 false).

(** Reading an object through a reference.  Every reference a program
    holds is allocated (see [wf] and [wf_step] below); the value given to
    an unallocated address is never looked at in a reachable state. *)
Definition tbl (w : World) (t : tref) : Table := table_objs w !!! t.
Definition bkg (w : World) (b : bref) : Booking := booking_objs w !!! b.

Definition set_tbl (w : World) (t : tref) (obj : Table) : World :=
  mkWorld (<[t := obj]> (table_objs w)) (booking_objs w) (restaurant w).
Definition set_bkg (w : World) (b : bref) (obj : Booking) : World :=
  mkWorld (table_objs w) (<[b := obj]> (booking_objs w)) (restaurant w).

(** [list.remove(x)]: drops the first element equal to [x]; [None] stands
    for the [ValueError] it raises when there is none. *)
Fixpoint list_remove (x : nat) (l : list nat) : option (list nat) :=
  match l with
  | [] => None
  | y :: l' =>
      if decide (y = x) then Some l'
      else l'' ← list_remove x l'; Some (y :: l'')
  end.

(** [Booking.cancel], on the store: the booking is deactivated, and its
    table released when the table's [current_booking] is this very
    object. *)
Definition cancel (w : World) (self : bref) : World :=
  let w1 := set_bkg w self (Booking_.deactivate (bkg w self)) in
  let t := table (bkg w1 self) in
  if decide (current_booking (tbl w1 t) = Some self)
  then set_tbl w1 t (Table_.release (tbl w1 t))
  else w1.

Module Restaurant_.

Definition __init__ : Restaurant := mkRestaurant [] [] 1 1.

(** The [tables] property: a copy of the list. *)
Definition tables (w : World) : list tref := _tables (restaurant w).

(** The [bookings] property: the active bookings, in creation order. *)
Definition bookings (w : World) : list bref :=
  filter (λ b, is_active (bkg w b) = true) (_bookings (restaurant w)).

Definition add_table (w : World) (name : str) (seats : Z) : tref * World :=
  let self := restaurant w in
  let table := length (table_objs w) in
  (table,
   mkWorld (table_objs w ++ [Table_.__init__ (_next_table_id self) name seats])
           (booking_objs w)
           (mkRestaurant (_tables self ++ [table]) (_bookings self)
                         (_next_table_id self + 1) (_next_booking_id self))).

Definition find_table_by_id (w : World) (tid : Z) : option tref :=
  head (filter (λ t, table_id (tbl w t) = tid) (_tables (restaurant w))).

Definition remove_table (w : World) (tid : Z) : result bool * World :=
  let self := restaurant w in
  match find_table_by_id w tid with
  | Some table =>
      if negb (is_occupied (tbl w table)) then
        match list_remove table (_tables self) with
        | Some l =>
            (Ok true,
             mkWorld (table_objs w) (booking_objs w)
                     (mkRestaurant l (_bookings self) (_next_table_id self)
                                   (_next_booking_id self)))
        | None => (Raise (ValueError "list.remove(x): x not in list"), w)
        end
      else (Ok false, w)
  | None => (Ok false, w)
  end.

(** The condition inside the loop of [_is_table_occupied]. *)
Definition conflicts (w : World) (booking : bref) (tab : tref)
    (t_start t_end : Z) : bool :=
  bool_decide (table (bkg w booking) = tab)
  && is_active (bkg w booking)
  && negb ((t_end <=? start_time (bkg w booking))
           || (t_start >=? end_time (bkg w booking))).

(** The loop of [_is_table_occupied] over the remaining bookings [bs]:
    [True] at the first conflicting booking, the table's flag when the
    loop runs out. *)
Fixpoint occupied_loop (w : World) (bs : list bref) (tab : tref)
    (t_start t_end : Z) : bool :=
  match bs with
  | [] => is_occupied (tbl w tab)
  | booking :: bs' =>
      if conflicts w booking tab t_start t_end then true
      else occupied_loop w bs' tab t_start t_end
  end.

Definition _is_table_occupied (w : World) (tab : tref)
    (t_start t_end : Z) : bool :=
  occupied_loop w (bookings w) tab t_start t_end.

Definition create_booking (w : World) (now : Z) (guest_name phone : str)
    (tid : Z) (start_time end_time : Z) : result (option bref) * World :=
  let self := restaurant w in
  match find_table_by_id w tid with
  | None => (Ok None, w)
  | Some table =>
      if _is_table_occupied w table start_time end_time then (Ok None, w)
      else
        match Booking_.__init__ now (_next_booking_id self) guest_name phone
                                table start_time end_time with
        | Raise e => (Raise e, w)
        | Ok obj =>
            let booking := length (booking_objs w) in
            (Ok (Some booking),
             mkWorld (table_objs w) (booking_objs w ++ [obj])
                     (mkRestaurant (_tables self) (_bookings self ++ [booking])
                                   (_next_table_id self)
                                   (_next_booking_id self + 1)))
        end
  end.

Definition occupy_table_directly (w : World) (tid : Z) : bool * World :=
  match find_table_by_id w tid with
  | Some table =>
      if negb (is_occupied (tbl w table))
      then (true, set_tbl w table (Table_.occupy (tbl w table) None))
      else (false, w)
  | None => (false, w)
  end.

Definition release_table (w : World) (tid : Z) : bool * World :=
  match find_table_by_id w tid with
  | Some table =>
      if is_occupied (tbl w table)
      then (true, set_tbl w table (Table_.release (tbl w table)))
      else (false, w)
  | None => (false, w)
  end.

Definition cancel_booking (w : World) (bid : Z) : bool * World :=
  match head (filter (λ b, booking_id (bkg w b) = bid)
                     (_bookings (restaurant w))) with
  | Some booking =>
      if is_active (bkg w booking) then (true, cancel w booking)
      else (false, w)
  | None => (false, w)
  end.

(** The two [continue] tests of [get_available_tables].  [seats] is
    [None] or an [int], and [0] is as false as [None]; a [datetime] is
    always true, so the time test only asks whether both bounds are
    given. *)
Definition too_small (w : World) (tab : tref) (seats_wanted : option Z)
    : bool :=
  match seats_wanted with
  | Some n => negb (n =? 0) && (seats (tbl w tab) <? n)
  | None => false
  end.

Definition busy (w : World) (tab : tref) (t_start t_end : option Z) : bool :=
  match t_start, t_end with
  | Some s, Some e => _is_table_occupied w tab s e
  | _, _ => false
  end.

(** The loop of [get_available_tables] over the remaining tables [ts]. *)
Fixpoint available_loop (w : World) (ts : list tref)
    (seats_wanted t_start t_end : option Z) : list tref :=
  match ts with
  | [] => []
  | tab :: ts' =>
      if too_small w tab seats_wanted
      then available_loop w ts' seats_wanted t_start t_end
      else if busy w tab t_start t_end
      then available_loop w ts' seats_wanted t_start t_end
      else tab :: available_loop w ts' seats_wanted t_start t_end
  end.

Definition get_available_tables (w : World)
    (seats_wanted t_start t_end : option Z) : list tref :=
  available_loop w (_tables (restaurant w)) seats_wanted t_start t_end.

End Restaurant_.

(** The state after [Restaurant()]: no object yet. *)
Definition world0 : World := mkWorld [] [] Restaurant_.__init__.

(** ** Sequences of Restaurant operations *)

Inductive Op : Type :=
  | AddTable (name : str) (seats : Z)
  | RemoveTable (tid : Z)
  | CreateBooking (now : Z) (guest_name phone : str) (tid : Z)
                  (start_time end_time : Z)
  | OccupyTableDirectly (tid : Z)
  | ReleaseTable (tid : Z)
  | CancelBooking (bid : Z).

(** The state an operation leaves; an exception leaves the state it was
    raised in. *)
Definition step (w : World) (op : Op) : World :=
  match op with
  | AddTable name seats => (Restaurant_.add_table w name seats).2
  | RemoveTable tid => (Restaurant_.remove_table w tid).2
  | CreateBooking now g p tid s e =>
      (Restaurant_.create_booking w now g p tid s e).2
  | OccupyTableDirectly tid => (Restaurant_.occupy_table_directly w tid).2
  | ReleaseTable tid => (Restaurant_.release_table w tid).2
  | CancelBooking bid => (Restaurant_.cancel_booking w bid).2
  end.

Definition run (w : World) (ops : list Op) : World := foldl step w ops.

(** ** Predicates on states and on sequences of operations *)

(** What holds of every state the Restaurant operations reach: the
    references held are allocated and listed once, and the ids handed out
    are distinct and below the next id. *)
Record wf (w : World) : Prop := mk_wf {
  wf_tables_alloc :
    Forall (λ t, (t < length (table_objs w))%nat) (_tables (restaurant w));
  wf_tables_nodup : NoDup (_tables (restaurant w));
  wf_table_ids :
    Forall (λ obj, table_id obj < _next_table_id (restaurant w))
           (table_objs w);
  wf_table_ids_nodup : NoDup (table_id <$> table_objs w);
  wf_bookings_alloc :
    Forall (λ b, (b < length (booking_objs w))%nat)
           (_bookings (restaurant w));
  wf_bookings_nodup : NoDup (_bookings (restaurant w));
  wf_booking_ids :
    Forall (λ obj, booking_id obj < _next_booking_id (restaurant w))
           (booking_objs w);
  wf_booking_ids_nodup : NoDup (booking_id <$> booking_objs w);
  wf_booking_table :
    Forall (λ obj, (table obj < length (table_objs w))%nat) (booking_objs w)
}.



(** Any two distinct active bookings of one table have disjoint
    intervals. *)
Definition overlap (o1 o2 : Booking) : Prop :=
  start_time o1 < end_time o2 ∧ start_time o2 < end_time o1.

Definition no_double_booking (w : World) : Prop :=
  ∀ b1 b2, b1 ∈ _bookings (restaurant w) → b2 ∈ _bookings (restaurant w) →
           b1 ≠ b2 →
           is_active (bkg w b1) = true → is_active (bkg w b2) = true →
           table (bkg w b1) = table (bkg w b2) →
           ¬ overlap (bkg w b1) (bkg w b2).

(** The ids count the objects ever created, from 1, and the booking
    collection lists every booking ever created, in creation order. *)
Record sequential_ids (w : World) : Prop := mk_sequential_ids {
  seq_table_id :
    ∀ t obj, table_objs w !! t = Some obj → table_id obj = Z.of_nat t + 1;
  seq_next_table_id :
    _next_table_id (restaurant w) = Z.of_nat (length (table_objs w)) + 1;
  seq_booking_id :
    ∀ b obj, booking_objs w !! b = Some obj →
             booking_id obj = Z.of_nat b + 1;
  seq_next_booking_id :
    _next_booking_id (restaurant w)
    = Z.of_nat (length (booking_objs w)) + 1;
  seq_bookings : _bookings (restaurant w) = seq 0 (length (booking_objs w))
}.

(** No table refers to a booking. *)
Definition no_current_booking (w : World) : Prop :=
  Forall (λ obj, current_booking obj = None) (table_objs w).

(** What the setters of [Booking] let through. *)
Definition all_space (s : str) : Prop := Forall (λ c, isspace c = true) s.

Definition trimmed (s : str) : Prop :=
  s ≠ [] ∧ (∀ c, head s = Some c → isspace c = false)
  ∧ (∀ c, last s = Some c → isspace c = false).

Record valid_booking (obj : Booking) : Prop := mk_valid_booking {
  valid_guest_name : trimmed (guest_name obj);
  valid_phone : trimmed (phone obj);
  valid_times : start_time obj < end_time obj
}.

(** What an operation keeps of an object: the identity of a table, and
    everything of a booking but its being active, which can only be
    lost. *)
Definition same_table (o o' : Table) : Prop :=
  table_id o' = table_id o ∧ name o' = name o ∧ seats o' = seats o.

Definition same_booking (o o' : Booking) : Prop :=
  booking_id o' = booking_id o ∧ guest_name o' = guest_name o
  ∧ phone o' = phone o ∧ table o' = table o
  ∧ start_time o' = start_time o ∧ end_time o' = end_time o
  ∧ (is_active o' = true → is_active o = true).

(** The state changes an operation can make, each with the tests that
    lead to it ([step_effect] below). *)
Inductive effect (w : World) : World → Prop :=
  | effect_none : effect w w
  | effect_add_table name seats :
      effect w (Restaurant_.add_table w name seats).2
  | effect_remove_table tid t l :
      Restaurant_.find_table_by_id w tid = Some t →
      is_occupied (tbl w t) = false →
      list_remove t (_tables (restaurant w)) = Some l →
      effect w (mkWorld (table_objs w) (booking_objs w)
                  (mkRestaurant l (_bookings (restaurant w))
                     (_next_table_id (restaurant w))
                     (_next_booking_id (restaurant w))))
  | effect_create_booking now g p tid s e t obj :
      Restaurant_.find_table_by_id w tid = Some t →
      Restaurant_._is_table_occupied w t s e = false →
      Booking_.__init__ now (_next_booking_id (restaurant w)) g p t s e
      = Ok obj →
      effect w (mkWorld (table_objs w) (booking_objs w ++ [obj])
                  (mkRestaurant (_tables (restaurant w))
                     (_bookings (restaurant w) ++ [length (booking_objs w)])
                     (_next_table_id (restaurant w))
                     (_next_booking_id (restaurant w) + 1)))
  | effect_occupy tid t :
      Restaurant_.find_table_by_id w tid = Some t →
      is_occupied (tbl w t) = false →
      effect w (set_tbl w t (Table_.occupy (tbl w t) None))
  | effect_release tid t :
      Restaurant_.find_table_by_id w tid = Some t →
      is_occupied (tbl w t) = true →
      effect w (set_tbl w t (Table_.release (tbl w t)))
  | effect_cancel bid b :
      head (filter (λ b, booking_id (bkg w b) = bid)
                   (_bookings (restaurant w))) = Some b →
      is_active (bkg w b) = true →
      effect w (cancel w b).

(** ** utils.py *)

Module Utils.

(** Here a [datetime] counts the microseconds since [datetime.min],
    midnight of 0001-01-01, so that it is a multiple of [hour] exactly
    when minute, second and microsecond are zero; [datetime_max] is
    [datetime.max], 9999-12-31 23:59:59.999999. *)
Definition hour : Z := 3600000000.

Definition datetime_max : Z := 315537897599999999.

(** [dt + timedelta]; [None] stands for the [OverflowError] raised when
    the sum is not a [datetime]. *)
Definition datetime_add (dt delta : Z) : option Z :=
  let r := dt + delta in
  if (0 <=? r) && (r <=? datetime_max) then Some r else None.

(** [dt.replace(minute=0, second=0, microsecond=0)] *)
Definition on_the_hour (dt : Z) : Z := dt - dt `mod` hour.

(** [get_default_booking_times], [now] being the clock reading it takes;
    [None] stands for an [OverflowError] of one of the two additions. *)
Definition get_default_booking_times (now : Z) : option (Z * Z) :=
  later ← datetime_add now hour;
  let start_time := on_the_hour later in
  end_time ← datetime_add start_time hour;
  Some (start_time, end_time).

(** [validate_phone], over the table [isdigit] of the code points for
    which [str.isdigit] holds; 43 is the plus sign. *)
Definition validate_phone (isdigit : N → bool) (phone : str) : bool :=
  let cleaned := filter (λ c, isdigit c = true ∨ c = 43%N) phone in
  (10 <=? length cleaned)%nat.

End Utils.

(** ** main.py: the sample data *)

Module Main.

(** A literal of the source, all of whose characters are ASCII, as a
    [str]. *)
Definition lit (s : string) : str :=
  (λ a, Ascii.N_of_ascii a) <$> String.list_ascii_of_string s.

Definition tables_data : list (str * Z) :=
  [(lit "Window 1", 2); (lit "Window 2", 2); (lit "Center 1", 4);
   (lit "Center 2", 4); (lit "VIP 1", 6); (lit "VIP 2", 8);
   (lit "Bar Counter 1", 1); (lit "Bar Counter 2", 1)].

(** How [_add_sample_data] ends: it returns, or an [OverflowError] of a
    date addition leaves it, which the [except ValueError] does not
    catch. *)
Inductive completion : Type :=
  | Returns
  | RaisesOverflowError.

(** [_add_sample_data].  [now] is the clock reading the function takes;
    [now1] and [now2] are the later readings inside the two [Booking]
    constructions.  The arguments of a call are evaluated before the
    call, the two date additions last.  A [ValueError] of the first
    [create_booking] skips the second one; either is swallowed by the
    [except]. *)
Definition _add_sample_data (w : World) (now now1 now2 : Z)
    : completion * World :=
  let w1 :=
    foldl (λ w '(name, seats), (Restaurant_.add_table w name seats).2)
          w tables_data in
  match Utils.datetime_add now (2 * Utils.hour),
        Utils.datetime_add now (3 * Utils.hour) with
  | Some start1, Some end1 =>
      match Restaurant_.create_booking w1 now1
              (lit "Ryan Gosling") (lit "+79161234567") 1 start1 end1 with
      | (Ok _, w2) =>
          match Utils.datetime_add now Utils.hour,
                Utils.datetime_add now (2 * Utils.hour) with
          | Some start2, Some end2 =>
              (Returns,
               (Restaurant_.create_booking w2 now2
                  (lit "Jane Doe") (lit "+79167654321") 3 start2 end2).2)
          | _, _ => (RaisesOverflowError, w2)
          end
      | (Raise (ValueError _), w2) => (Returns, w2)
      end
  | _, _ => (RaisesOverflowError, w1)
  end.

End Main.

(** * Properties *)

(** ** Reading and writing the store *)

Lemma tbl_lookup w t obj : table_objs w !! t = Some obj → tbl w t = obj.
Proof. apply list_lookup_total_correct. Qed.

Lemma bkg_lookup w b obj : booking_objs w !! b = Some obj → bkg w b = obj.
Proof. apply list_lookup_total_correct. Qed.

Lemma tbl_alloc w t :
  (t < length (table_objs w))%nat → table_objs w !! t = Some (tbl w t).
Proof.
  intros Hlt. destruct (lookup_lt_is_Some_2 _ _ Hlt) as [obj Hobj].
  by rewrite (tbl_lookup _ _ _ Hobj).
Qed.

Lemma bkg_alloc w b :
  (b < length (booking_objs w))%nat → booking_objs w !! b = Some (bkg w b).
Proof.
  intros Hlt. destruct (lookup_lt_is_Some_2 _ _ Hlt) as [obj Hobj].
  by rewrite (bkg_lookup _ _ _ Hobj).
Qed.

Lemma bkg_set_bkg w b obj b' :
  bkg (set_bkg w b obj) b' =
    if decide (b = b' ∧ (b < length (booking_objs w))%nat) then obj
    else bkg w b'.
Proof.
  unfold bkg, set_bkg; simpl. rewrite !list_lookup_total_alt, list_lookup_insert.
  by destruct (decide _).
Qed.

Lemma tbl_set_tbl w t obj t' :
  tbl (set_tbl w t obj) t' =
    if decide (t = t' ∧ (t < length (table_objs w))%nat) then obj
    else tbl w t'.
Proof.
  unfold tbl, set_tbl; simpl. rewrite !list_lookup_total_alt, list_lookup_insert.
  by destruct (decide _).
Qed.

(** ** Interval overlap *)

Lemma conflicts_spec w b tab s e :
  Restaurant_.conflicts w b tab s e = true ↔
    table (bkg w b) = tab ∧ is_active (bkg w b) = true
    ∧ s < end_time (bkg w b) ∧ start_time (bkg w b) < e.
Proof.
  unfold Restaurant_.conflicts.
  rewrite !andb_true_iff, negb_true_iff, orb_false_iff, bool_decide_eq_true.
  rewrite Z.leb_gt, Z.geb_leb, Z.leb_gt. tauto.
Qed.

Lemma occupied_loop_spec w bs tab s e :
  Restaurant_.occupied_loop w bs tab s e = true ↔
    is_occupied (tbl w tab) = true
    ∨ ∃ b, b ∈ bs ∧ Restaurant_.conflicts w b tab s e = true.
Proof.
  induction bs as [|b bs IH]; simpl.
  - split; [by left | intros [H | (b & Hb & _)]; [done | by inversion Hb]].
  - destruct (Restaurant_.conflicts w b tab s e) eqn:Hc.
    + split; [intros _; right; exists b; split; [left | done] | done].
    + rewrite IH. split.
      * intros [H | (b' & Hb' & Hc')]; [by left |].
        right. exists b'. split; [by right | done].
      * intros [H | (b' & Hb' & Hc')]; [by left |].
        apply elem_of_cons in Hb' as [-> | Hb']; [congruence |].
        right. by exists b'.
Qed.

Lemma is_table_occupied_spec w tab s e :
  Restaurant_._is_table_occupied w tab s e = true ↔
    is_occupied (tbl w tab) = true
    ∨ ∃ b, b ∈ _bookings (restaurant w) ∧ is_active (bkg w b) = true
           ∧ table (bkg w b) = tab
           ∧ s < end_time (bkg w b) ∧ start_time (bkg w b) < e.
Proof.
  unfold Restaurant_._is_table_occupied, Restaurant_.bookings.
  rewrite occupied_loop_spec. apply or_iff_compat_l.
  split; intros (b & Hb & H).
  - apply list_elem_of_filter in Hb as [_ Hb].
    apply conflicts_spec in H as (? & ? & ? & ?). by exists b.
  - destruct H as (? & ? & ? & ?).
    exists b. by rewrite list_elem_of_filter, conflicts_spec.
Qed.

(** C2: [_is_table_occupied] uses half-open intervals.  An active booking
    on the table conflicts with the request [[s, e)] exactly when
    [s < booking.end_time] and [booking.start_time < e]; the predicate is
    true exactly when the table's flag is set or such a booking exists.
    A request that starts when the booking ends, or ends when it starts,
    does not conflict; a request contained in the booking's interval, or
    one that overlaps its beginning, does. *)
Theorem C2_overlap_half_open (w : World) (tab : tref) (b : bref) (s e : Z) :
  is_active (bkg w b) = true →
  table (bkg w b) = tab →
  (Restaurant_.conflicts w b tab s e = true ↔
     s < end_time (bkg w b) ∧ start_time (bkg w b) < e)
  ∧ (Restaurant_._is_table_occupied w tab s e = true ↔
       is_occupied (tbl w tab) = true
       ∨ ∃ b', b' ∈ _bookings (restaurant w) ∧ is_active (bkg w b') = true
               ∧ table (bkg w b') = tab
               ∧ s < end_time (bkg w b') ∧ start_time (bkg w b') < e)
  ∧ Restaurant_.conflicts w b tab (end_time (bkg w b)) e = false
  ∧ Restaurant_.conflicts w b tab s (start_time (bkg w b)) = false
  ∧ (start_time (bkg w b) ≤ s → s < e → e ≤ end_time (bkg w b) →
     Restaurant_.conflicts w b tab s e = true)
  ∧ (s < start_time (bkg w b) → start_time (bkg w b) < e →
     e ≤ end_time (bkg w b) →
     Restaurant_.conflicts w b tab s e = true).
Proof.
  intros Hact Htab.
  assert (Hiff : ∀ s' e', Restaurant_.conflicts w b tab s' e' = true ↔
            s' < end_time (bkg w b) ∧ start_time (bkg w b) < e').
  { intros s' e'. rewrite conflicts_spec. tauto. }
  split; [apply Hiff |]. split; [apply is_table_occupied_spec |].
  repeat split.
  - apply not_true_is_false. rewrite Hiff. lia.
  - apply not_true_is_false. rewrite Hiff. lia.
  - intros. apply Hiff. lia.
  - intros. apply Hiff. lia.
Qed.

Lemma C2_overlap_half_open_witness :
  let w := mkWorld [Table_.__init__ 1 [84%N] 4]
                   [mkBooking 1 [65%N] [43%N] 0%nat 600 660 true]
                   (mkRestaurant [0%nat] [0%nat] 2 2) in
  Restaurant_._is_table_occupied w 0%nat 660 720 = false
  ∧ Restaurant_._is_table_occupied w 0%nat 630 645 = true
  ∧ Restaurant_._is_table_occupied w 0%nat 540 630 = true
  ∧ Restaurant_.conflicts w 0%nat 0%nat 660 720 = false.
Proof.
  intros w.
  pose proof (C2_overlap_half_open w 0%nat 0%nat 660 720 eq_refl eq_refl)
    as (_ & _ & Hadj & _).
  split; [reflexivity | split; [reflexivity | split; [reflexivity |]]].
  exact Hadj.
Defined.

(** ** Booking construction *)

(** C4: [Booking.__init__] checks the guest name, then the phone, then
    that the start time is not before the current time, then that the end
    time is strictly after the start time, and raises at the first rule
    that fails; a booking is returned only when all four hold.  Whatever
    the other arguments, [end_time <= start_time] makes it raise. *)
Theorem C4_booking_init_validation_order
    (now bid : Z) (g p : str) (t : tref) (s e : Z) :
  let r := Booking_.__init__ now bid g p t s e in
  (blank g = true → r = Raise (ValueError "Guest name cannot be empty"))
  ∧ (blank g = false → blank p = true →
     r = Raise (ValueError "Phone cannot be empty"))
  ∧ (blank g = false → blank p = false → s < now →
     r = Raise (ValueError "Start time cannot be in the past"))
  ∧ (blank g = false → blank p = false → now ≤ s → e ≤ s →
     r = Raise (ValueError "End time must be after start time"))
  ∧ (blank g = false → blank p = false → now ≤ s → s < e →
     r = Ok (mkBooking bid (strip g) (strip p) t s e true))
  ∧ (e ≤ s → is_Raise r).
Proof.
  unfold Booking_.__init__, Booking_.check_guest_name, Booking_.check_phone,
    Booking_.check_start_time, Booking_.check_end_time; simpl.
  repeat split.
  - by intros ->.
  - by intros -> ->.
  - intros -> -> Hs. simpl. by rewrite (proj2 (Z.ltb_lt _ _) Hs).
  - intros -> -> Hs He. simpl.
    rewrite (proj2 (Z.ltb_ge _ _) Hs). simpl.
    by rewrite (proj2 (Z.leb_le _ _) He).
  - intros -> -> Hs He. simpl.
    rewrite (proj2 (Z.ltb_ge _ _) Hs). simpl.
    by rewrite (proj2 (Z.leb_gt _ _) He).
  - intros He. destruct (blank g); [by eexists |].
    destruct (blank p); [by eexists |]. simpl.
    destruct (s <? now); [by eexists |]. simpl.
    rewrite (proj2 (Z.leb_le _ _) He). by eexists.
Qed.

Lemma C4_booking_init_validation_order_witness :
  Booking_.__init__ 100 1 [] [] 0%nat 50 40
    = Raise (ValueError "Guest name cannot be empty")
  ∧ Booking_.__init__ 100 1 [65%N] [32%N] 0%nat 50 40
    = Raise (ValueError "Phone cannot be empty")
  ∧ Booking_.__init__ 100 1 [65%N] [43%N] 0%nat 50 40
    = Raise (ValueError "Start time cannot be in the past")
  ∧ Booking_.__init__ 100 1 [65%N] [43%N] 0%nat 150 150
    = Raise (ValueError "End time must be after start time")
  ∧ Booking_.__init__ 100 1 [32%N; 65%N] [43%N; 10%N] 0%nat 150 160
    = Ok (mkBooking 1 [65%N] [43%N] 0%nat 150 160 true)
  ∧ is_Raise (Booking_.__init__ 100 1 [65%N] [43%N] 0%nat 150 120).
Proof.
  split; [| split; [| split; [| split; [| split]]]].
  - apply (C4_booking_init_validation_order 100 1 [] [] 0%nat 50 40).
    reflexivity.
  - apply (C4_booking_init_validation_order 100 1 [65%N] [32%N] 0%nat 50 40);
      reflexivity.
  - apply (C4_booking_init_validation_order 100 1 [65%N] [43%N] 0%nat 50 40);
      [reflexivity | reflexivity | lia].
  - apply (C4_booking_init_validation_order
             100 1 [65%N] [43%N] 0%nat 150 150);
      [reflexivity | reflexivity | lia | lia].
  - apply (C4_booking_init_validation_order
             100 1 [32%N; 65%N] [43%N; 10%N] 0%nat 150 160);
      [reflexivity | reflexivity | lia | lia].
  - apply (C4_booking_init_validation_order
             100 1 [65%N] [43%N] 0%nat 150 120). lia.
Defined.

(** ** The order of the two times of a booking *)

Lemma init_end_after_start now bid g p t s e obj :
  Booking_.__init__ now bid g p t s e = Ok obj →
  start_time obj < end_time obj.
Proof.
  unfold Booking_.__init__, Booking_.check_guest_name, Booking_.check_phone,
    Booking_.check_start_time, Booking_.check_end_time.
  destruct (blank g); [done |]. destruct (blank p); [done |]. simpl.
  destruct (s <? now); [done |]. simpl.
  destruct (e <=? s) eqn:He; [done |]. simpl.
  intros [= <-]. simpl. by apply Z.leb_gt.
Qed.

Lemma set_end_time_end_after_start self value obj :
  Booking_.set_end_time self value = Ok obj →
  start_time obj < end_time obj.
Proof.
  unfold Booking_.set_end_time, Booking_.check_end_time.
  destruct (value <=? start_time self) eqn:He; [done |]. simpl.
  intros [= <-]. simpl. by apply Z.leb_gt.
Qed.

(** C6: [end_time > start_time] does not survive the [start_time] setter.
    The setter compares the new value with the current time only, so a
    booking built for [[10, 20)] accepts the start time 30 and is left
    with its end time before its start time. *)
Theorem C6_start_time_setter_breaks_order :
  ∃ b0 b1,
    Booking_.__init__ 0 1 [65%N] [43%N] 0%nat 10 20 = Ok b0
    ∧ start_time b0 < end_time b0
    ∧ Booking_.set_start_time 0 b0 30 = Ok b1
    ∧ end_time b1 ≤ start_time b1.
Proof.
  eexists _, _. split; [reflexivity |]. split; [reflexivity |].
  split; [reflexivity |]. by vm_compute.
Qed.

(** ** Adding a table *)

(** C1: [add_table] does not validate.  With the empty name and zero
    seats it still appends the new table, hands out the next id and
    returns the table, while the setters of that same table reject both
    values. *)
Theorem C1_add_table_accepts_invalid :
  let r := Restaurant_.add_table world0 [] 0 in
  _tables (restaurant r.2) = [r.1]
  ∧ _next_table_id (restaurant r.2) = _next_table_id (restaurant world0) + 1
  ∧ tbl r.2 r.1 = mkTable 1 [] 0 false None
  ∧ Table_.set_name (tbl r.2 r.1) []
    = Raise (ValueError "Table name cannot be empty")
  ∧ Table_.set_seats (tbl r.2 r.1) 0
    = Raise (ValueError "Number of seats must be positive").
Proof. repeat split. Qed.

(** ** Cancelling *)

Lemma cancel_eq w self obj t_obj :
  booking_objs w !! self = Some obj →
  table_objs w !! table obj = Some t_obj →
  cancel w self =
    mkWorld (if decide (current_booking t_obj = Some self)
             then <[table obj := Table_.release t_obj]> (table_objs w)
             else table_objs w)
            (<[self := Booking_.deactivate obj]> (booking_objs w))
            (restaurant w).
Proof.
  intros Hb Ht.
  assert (Hlen : (self < length (booking_objs w))%nat)
    by (eapply lookup_lt_Some; eauto).
  unfold cancel. rewrite bkg_set_bkg, (bkg_lookup _ _ _ Hb).
  destruct (decide (self = self ∧ _)) as [_ | Hn]; [| by destruct Hn].
  simpl.
  replace (tbl (set_bkg w self (Booking_.deactivate obj)) (table obj))
    with t_obj by (symmetry; by apply list_lookup_total_correct).
  by destruct (decide _).
Qed.

(** C7: [cancel] deactivates the booking and changes nothing else of it;
    when the [current_booking] of its table is this very booking the
    table is released, and otherwise (another booking, or none as after a
    walk-in) no table changes.  [cancel_booking] cancels the first
    booking carrying the id when it is active. *)
Theorem C7_cancel_releases_own_table_only
    (w : World) (self : bref) (obj : Booking) (t_obj : Table) :
  booking_objs w !! self = Some obj →
  table_objs w !! table obj = Some t_obj →
  let w' := cancel w self in
  booking_objs w' = <[self := Booking_.deactivate obj]> (booking_objs w)
  ∧ is_active (bkg w' self) = false
  ∧ restaurant w' = restaurant w
  ∧ (current_booking t_obj = Some self →
     table_objs w' = <[table obj := Table_.release t_obj]> (table_objs w)
     ∧ is_occupied (tbl w' (table obj)) = false
     ∧ current_booking (tbl w' (table obj)) = None)
  ∧ (current_booking t_obj ≠ Some self → table_objs w' = table_objs w)
  ∧ (∀ bid,
       (Restaurant_.cancel_booking w bid).1 = true →
       ∃ b, head (filter (λ b, booking_id (bkg w b) = bid)
                         (_bookings (restaurant w))) = Some b
            ∧ is_active (bkg w b) = true
            ∧ (Restaurant_.cancel_booking w bid).2 = cancel w b).
Proof.
  intros Hb Ht w'. subst w'. rewrite (cancel_eq _ _ _ _ Hb Ht).
  assert (Hlen : (self < length (booking_objs w))%nat)
    by (eapply lookup_lt_Some; eauto).
  assert (Htlen : (table obj < length (table_objs w))%nat)
    by (eapply lookup_lt_Some; eauto).
  split; [done |]. split.
  { unfold bkg; simpl. by rewrite list_lookup_total_insert_eq. }
  split; [done |]. split.
  { intros Hcur. rewrite decide_True by done. simpl. split; [done |].
    unfold tbl; simpl. by rewrite list_lookup_total_insert_eq. }
  split.
  { intros Hcur. by rewrite decide_False. }
  intros bid. unfold Restaurant_.cancel_booking.
  destruct (head _) as [b|]; [| done].
  destruct (is_active (bkg w b)) eqn:Hact; [| done].
  intros _. by exists b.
Qed.

Lemma C7_cancel_releases_own_table_only_witness :
  let w := mkWorld [mkTable 1 [84%N] 4 true (Some 1%nat)]
                   [mkBooking 1 [65%N] [43%N] 0%nat 10 20 true;
                    mkBooking 2 [66%N] [43%N] 0%nat 30 40 true]
                   (mkRestaurant [0%nat] [0%nat; 1%nat] 2 3) in
  (is_active (bkg (cancel w 0%nat) 0%nat) = false
   ∧ table_objs (cancel w 0%nat) = table_objs w)
  ∧ (is_active (bkg (cancel w 1%nat) 1%nat) = false
     ∧ is_occupied (tbl (cancel w 1%nat) 0%nat) = false
     ∧ current_booking (tbl (cancel w 1%nat) 0%nat) = None).
Proof.
  intros w. split.
  - pose proof (C7_cancel_releases_own_table_only w 0%nat _ _ eq_refl eq_refl)
      as (_ & Hact & _ & _ & Hother & _).
    split; [exact Hact | apply Hother; discriminate].
  - pose proof (C7_cancel_releases_own_table_only w 1%nat _ _ eq_refl eq_refl)
      as (_ & Hact & _ & Hown & _).
    split; [exact Hact | apply Hown; reflexivity].
Defined.

(** ** Finding and removing in a list *)

Lemma head_filter_Some {A} (P : A → Prop) `{!∀ x, Decision (P x)}
    (l : list A) (x : A) :
  head (filter P l) = Some x →
  ∃ l1 l2, l = l1 ++ x :: l2 ∧ P x ∧ Forall (λ y, ¬ P y) l1.
Proof.
  induction l as [|y l IH]; [done |].
  rewrite filter_cons. destruct (decide (P y)) as [Hy | Hy]; simpl.
  - intros [= ->]. exists [], l. by repeat split.
  - intros Hx. destruct (IH Hx) as (l1 & l2 & -> & HP & Hl1).
    exists (y :: l1), l2. repeat split; [done |]. by constructor.
Qed.

Lemma head_filter_None {A} (P : A → Prop) `{!∀ x, Decision (P x)}
    (l : list A) :
  head (filter P l) = None ↔ Forall (λ y, ¬ P y) l.
Proof.
  induction l as [|y l IH]; [by split |].
  rewrite filter_cons. destruct (decide (P y)) as [Hy | Hy]; simpl.
  - split; [done | by inversion 1].
  - rewrite IH. split; [by constructor | by inversion 1].
Qed.

Lemma list_remove_first x l l' :
  list_remove x l = Some l' ↔
    ∃ l1 l2, l = l1 ++ x :: l2 ∧ (x ∉ l1) ∧ l' = l1 ++ l2.
Proof.
  revert l'. induction l as [|y l IH]; intros l'; simpl.
  - split; [done | intros (l1 & l2 & H & _); by destruct l1].
  - destruct (decide (y = x)) as [-> | Hne].
    + split.
      * intros [= <-]. exists [], l. repeat split. apply not_elem_of_nil.
      * intros (l1 & l2 & H & Hni & ->). destruct l1 as [|z l1].
        { by injection H as <-. }
        injection H as <- _. exfalso. apply Hni. left.
    + destruct (list_remove x l) as [l''|] eqn:Hrm; simpl.
      * split.
        { intros [= <-]. destruct (proj1 (IH l'') eq_refl)
            as (l1 & l2 & -> & Hni & ->).
          exists (y :: l1), l2. repeat split.
          rewrite not_elem_of_cons. by split. }
        intros (l1 & l2 & H & Hni & ->). destruct l1 as [|z l1].
        { by injection H as ?. }
        injection H as <- ->. f_equal. apply not_elem_of_cons in Hni as [_ Hni].
        assert (Hl : Some l'' = Some (l1 ++ l2)); [| by injection Hl as ->].
        apply IH. by exists l1, l2.
      * split; [done |].
        intros (l1 & l2 & H & Hni & ->). destruct l1 as [|z l1].
        { by injection H as ?. }
        injection H as <- ->. apply not_elem_of_cons in Hni as [_ Hni].
        assert (Hl : None = Some (l1 ++ l2)); [| done].
        apply IH. by exists l1, l2.
Qed.

Lemma list_remove_elem x l : x ∈ l → is_Some (list_remove x l).
Proof.
  induction l as [|y l IH]; [by inversion 1 |]. simpl.
  destruct (decide (y = x)) as [-> | Hne]; [by eexists |].
  intros [? | Hx]%elem_of_cons; [congruence |].
  destruct (IH Hx) as [l' ->]. by eexists.
Qed.

Lemma list_remove_NoDup x l l' :
  NoDup l → list_remove x l = Some l' →
  NoDup l' ∧ ∀ y, y ∈ l' ↔ y ∈ l ∧ y ≠ x.
Proof.
  intros Hnd (l1 & l2 & -> & Hni & ->)%list_remove_first.
  apply NoDup_app in Hnd as (Hnd1 & Hdisj & Hnd2).
  apply NoDup_cons in Hnd2 as [Hx2 Hnd2]. split.
  - apply NoDup_app. repeat split; [done | | done].
    intros y Hy1 Hy2. apply (Hdisj y Hy1). by right.
  - intros y. rewrite !elem_of_app, elem_of_cons. split.
    + intros [Hy | Hy]; (split; [tauto |]); intros ->; tauto.
    + tauto.
Qed.

(** ** Well-formed states *)

Lemma find_table_by_id_Some w tid t :
  Restaurant_.find_table_by_id w tid = Some t →
  t ∈ _tables (restaurant w) ∧ table_id (tbl w t) = tid.
Proof.
  intros (l1 & l2 & Hl & Hid & _)%head_filter_Some. split; [| done].
  rewrite Hl, elem_of_app. right. left.
Qed.

Lemma find_table_by_id_None w tid :
  Restaurant_.find_table_by_id w tid = None ↔
    ∀ t, t ∈ _tables (restaurant w) → table_id (tbl w t) ≠ tid.
Proof.
  unfold Restaurant_.find_table_by_id.
  by rewrite head_filter_None, Forall_forall.
Qed.

Lemma fresh_not_elem (l : list nat) (n : nat) :
  Forall (λ x, (x < n)%nat) l → n ∉ l.
Proof.
  rewrite Forall_forall. intros Hl Hn. specialize (Hl _ Hn). lia.
Qed.

Lemma fresh_id_not_elem {A} (f : A → Z) (l : list A) (n : Z) :
  Forall (λ x, f x < n) l → n ∉ f <$> l.
Proof.
  rewrite Forall_forall. intros Hl (x & -> & Hx)%list_elem_of_fmap.
  specialize (Hl _ Hx). lia.
Qed.

Lemma wf_world0 : wf world0.
Proof. split; simpl; by constructor. Qed.

Lemma wf_add_table w name seats :
  wf w → wf (Restaurant_.add_table w name seats).2.
Proof.
  intros [Hta Htn Hti Htin Hba Hbn Hbi Hbin Hbt].
  split; simpl; rewrite ?length_app; simpl; try done.
  - apply Forall_app. split.
    + eapply Forall_impl; [exact Hta |]. simpl. lia.
    + repeat constructor. lia.
  - apply NoDup_app. repeat split; [done | | apply NoDup_singleton].
    intros t Ht ->%list_elem_of_singleton. by apply (fresh_not_elem _ _ Hta).
  - apply Forall_app. split.
    + eapply Forall_impl; [exact Hti |]. simpl. lia.
    + repeat constructor. simpl. lia.
  - rewrite fmap_app. apply NoDup_app. repeat split;
      [done | | apply NoDup_singleton].
    intros i Hi ->%list_elem_of_singleton.
    by apply (fresh_id_not_elem _ _ _ Hti).
  - eapply Forall_impl; [exact Hbt |]. simpl. lia.
Qed.

Lemma wf_remove_table w tid : wf w → wf (Restaurant_.remove_table w tid).2.
Proof.
  intros Hwf. unfold Restaurant_.remove_table.
  destruct (Restaurant_.find_table_by_id w tid) as [t|]; [| done].
  destruct (is_occupied (tbl w t)); [done |]. simpl.
  destruct (list_remove t _) as [l|] eqn:Hrm; [| done]. simpl.
  destruct Hwf as [Hta Htn Hti Htin Hba Hbn Hbi Hbin Hbt].
  destruct (list_remove_NoDup _ _ _ Htn Hrm) as [Hnd Hin].
  split; simpl; try done.
  rewrite Forall_forall in Hta |- *. intros x Hx. apply Hta. by apply Hin.
Qed.

Lemma wf_create_booking w now g p tid s e :
  wf w → wf (Restaurant_.create_booking w now g p tid s e).2.
Proof.
  intros Hwf. unfold Restaurant_.create_booking.
  destruct (Restaurant_.find_table_by_id w tid) as [t|] eqn:Hf; [| done].
  destruct (Restaurant_._is_table_occupied w t s e); [done |].
  destruct (Booking_.__init__ _ _ _ _ _ _ _) as [obj|] eqn:Hinit; [| done].
  simpl. apply find_table_by_id_Some in Hf as [Ht _].
  destruct Hwf as [Hta Htn Hti Htin Hba Hbn Hbi Hbin Hbt].
  assert (Hid : booking_id obj = _next_booking_id (restaurant w)
                ∧ table obj = t).
  { revert Hinit. unfold Booking_.__init__.
    destruct (Booking_.check_guest_name g); [| done]. simpl.
    destruct (Booking_.check_phone p); [| done]. simpl.
    destruct (Booking_.check_start_time now s); [| done]. simpl.
    destruct (Booking_.check_end_time _ e); [| done]. simpl.
    by intros [= <-]. }
  destruct Hid as [Hid Htab].
  split; simpl; rewrite ?length_app; simpl; try done.
  - apply Forall_app. split.
    + eapply Forall_impl; [exact Hba |]. simpl. lia.
    + repeat constructor. lia.
  - apply NoDup_app. repeat split; [done | | apply NoDup_singleton].
    intros b Hb ->%list_elem_of_singleton. by apply (fresh_not_elem _ _ Hba).
  - apply Forall_app. split.
    + eapply Forall_impl; [exact Hbi |]. simpl. lia.
    + repeat constructor. lia.
  - rewrite fmap_app. apply NoDup_app. repeat split;
      [done | | apply NoDup_singleton].
    intros i Hi ->%list_elem_of_singleton. simpl in Hi. rewrite Hid in Hi.
    by apply (fresh_id_not_elem _ _ _ Hbi).
  - apply Forall_app. split; [done |]. repeat constructor. rewrite Htab.
    rewrite Forall_forall in Hta. by apply Hta.
Qed.

Lemma wf_set_tbl w t obj :
  wf w → table_id obj = table_id (tbl w t) → wf (set_tbl w t obj).
Proof.
  intros [Hta Htn Hti Htin Hba Hbn Hbi Hbin Hbt] Hid.
  destruct (decide (t < length (table_objs w))%nat) as [Hlt | Hge].
  - pose proof (tbl_alloc _ _ Hlt) as Hlk.
    split; simpl; rewrite ?length_insert; try done.
    + apply Forall_insert; [done |]. rewrite Hid.
      rewrite Forall_forall in Hti. apply Hti.
      by apply list_elem_of_lookup_2 in Hlk.
    + rewrite list_fmap_insert, Hid. rewrite list_insert_id; [done |].
      by rewrite list_lookup_fmap, Hlk.
  - unfold set_tbl. rewrite list_insert_ge by lia. by destruct w.
Qed.

Lemma wf_set_bkg w b obj :
  wf w → booking_id obj = booking_id (bkg w b) →
  table obj = table (bkg w b) → wf (set_bkg w b obj).
Proof.
  intros [Hta Htn Hti Htin Hba Hbn Hbi Hbin Hbt] Hid Htab.
  destruct (decide (b < length (booking_objs w))%nat) as [Hlt | Hge].
  - pose proof (bkg_alloc _ _ Hlt) as Hlk.
    apply list_elem_of_lookup_2 in Hlk as Hin.
    split; simpl; rewrite ?length_insert; try done.
    + apply Forall_insert; [done |]. rewrite Hid.
      rewrite Forall_forall in Hbi. by apply Hbi.
    + rewrite list_fmap_insert, Hid. rewrite list_insert_id; [done |].
      by rewrite list_lookup_fmap, Hlk.
    + apply Forall_insert; [done |]. rewrite Htab.
      rewrite Forall_forall in Hbt. by apply Hbt.
  - unfold set_bkg. rewrite list_insert_ge by lia. by destruct w.
Qed.

Lemma wf_cancel w b : wf w → wf (cancel w b).
Proof.
  intros Hwf. unfold cancel.
  assert (Hwf1 : wf (set_bkg w b (Booking_.deactivate (bkg w b))))
    by by apply wf_set_bkg.
  destruct (decide _); [| done]. by apply wf_set_tbl.
Qed.

Lemma wf_step w op : wf w → wf (step w op).
Proof.
  intros Hwf. destruct op as [n s | tid | now g p tid s e | tid | tid | bid];
    simpl.
  - by apply wf_add_table.
  - by apply wf_remove_table.
  - by apply wf_create_booking.
  - unfold Restaurant_.occupy_table_directly.
    destruct (Restaurant_.find_table_by_id w tid) as [t|]; [| done].
    destruct (is_occupied (tbl w t)); [done |]. simpl. by apply wf_set_tbl.
  - unfold Restaurant_.release_table.
    destruct (Restaurant_.find_table_by_id w tid) as [t|]; [| done].
    destruct (is_occupied (tbl w t)); [| done]. simpl. by apply wf_set_tbl.
  - unfold Restaurant_.cancel_booking.
    destruct (head _) as [b|]; [| done].
    destruct (is_active (bkg w b)); [| done]. simpl. by apply wf_cancel.
Qed.

Lemma wf_run ops : ∀ w, wf w → wf (run w ops).
Proof.
  induction ops as [|op ops IH]; intros w Hwf; [done |].
  simpl. apply IH. by apply wf_step.
Qed.

Lemma wf_reachable ops : wf (run world0 ops).
Proof. apply wf_run, wf_world0. Qed.

(** ** Removing a table *)

(** C9: [remove_table] never raises.  When no table of the collection
    carries the id, or the table found is occupied, it returns [False]
    and the state is unchanged; otherwise it returns [True], the table
    found is taken out of the collection, the other tables keep their
    places, and nothing else changes. *)
Theorem C9_remove_table (w : World) (tid : Z) :
  wf w →
  let r := Restaurant_.remove_table w tid in
  is_Ok r.1
  ∧ ((∀ t, t ∈ _tables (restaurant w) → table_id (tbl w t) ≠ tid) →
     r = (Ok false, w))
  ∧ (∀ t, Restaurant_.find_table_by_id w tid = Some t →
          is_occupied (tbl w t) = true → r = (Ok false, w))
  ∧ (∀ t, Restaurant_.find_table_by_id w tid = Some t →
          is_occupied (tbl w t) = false →
          r.1 = Ok true
          ∧ (∃ l1 l2, _tables (restaurant w) = l1 ++ t :: l2
                      ∧ _tables (restaurant r.2) = l1 ++ l2)
          ∧ (t ∉ _tables (restaurant r.2))
          ∧ (∀ t', t' ≠ t →
               t' ∈ _tables (restaurant r.2) ↔ t' ∈ _tables (restaurant w))
          ∧ _bookings (restaurant r.2) = _bookings (restaurant w)
          ∧ _next_table_id (restaurant r.2) = _next_table_id (restaurant w)
          ∧ _next_booking_id (restaurant r.2)
            = _next_booking_id (restaurant w)
          ∧ table_objs r.2 = table_objs w
          ∧ booking_objs r.2 = booking_objs w).
Proof.
  intros Hwf r. subst r. unfold Restaurant_.remove_table.
  split; [| split; [| split]].
  - destruct (Restaurant_.find_table_by_id w tid) as [t|] eqn:Hf;
      [| by eexists].
    destruct (is_occupied (tbl w t)); [by eexists |]. simpl.
    apply find_table_by_id_Some in Hf as [Ht _].
    destruct (list_remove_elem _ _ Ht) as [l ->]. by eexists.
  - intros Hnone. apply find_table_by_id_None in Hnone. by rewrite Hnone.
  - intros t -> Hocc. by rewrite Hocc.
  - intros t Hf Hocc. rewrite Hf, Hocc. simpl.
    apply find_table_by_id_Some in Hf as [Ht _].
    destruct (list_remove_elem _ _ Ht) as [l Hrm]. rewrite Hrm. simpl.
    destruct (list_remove_NoDup _ _ _ (wf_tables_nodup _ Hwf) Hrm)
      as [_ Hin].
    apply list_remove_first in Hrm as Hsplit.
    destruct Hsplit as (l1 & l2 & Hl & _ & Hl').
    split; [done |]. split; [by exists l1, l2 |].
    split; [rewrite Hin; tauto |].
    split; [intros t' Hne; rewrite Hin; tauto | done].
Qed.

Lemma C9_remove_table_witness :
  let w := run world0 [AddTable [84%N] 4; AddTable [85%N] 2;
                       OccupyTableDirectly 2] in
  (Restaurant_.remove_table w 2 = (Ok false, w)
   ∧ Restaurant_.remove_table w 7 = (Ok false, w))
  ∧ (Restaurant_.remove_table w 1).1 = Ok true
  ∧ _tables (restaurant (Restaurant_.remove_table w 1).2) = [1%nat].
Proof.
  intros w.
  pose proof (C9_remove_table w 2 (wf_reachable _)) as (_ & _ & Hocc & _).
  pose proof (C9_remove_table w 7 (wf_reachable _)) as (_ & Hnone & _).
  pose proof (C9_remove_table w 1 (wf_reachable _)) as (_ & _ & _ & Hrm).
  split; [split |].
  - apply (Hocc 1%nat); reflexivity.
  - apply Hnone. intros t Ht.
    apply elem_of_cons in Ht as [-> | Ht]; [by vm_compute |].
    apply elem_of_cons in Ht as [-> | Ht]; [by vm_compute |].
    by apply not_elem_of_nil in Ht.
  - destruct (Hrm 0%nat eq_refl eq_refl) as (Hr & _). split; [exact Hr |].
    reflexivity.
Defined.

(** ** Creating a booking *)

Lemma create_booking_eq w now g p tid s e :
  Restaurant_.create_booking w now g p tid s e =
    match Restaurant_.find_table_by_id w tid with
    | None => (Ok None, w)
    | Some t =>
        if Restaurant_._is_table_occupied w t s e then (Ok None, w)
        else
          match Booking_.__init__ now (_next_booking_id (restaurant w))
                                  g p t s e with
          | Raise err => (Raise err, w)
          | Ok obj =>
              (Ok (Some (length (booking_objs w))),
               mkWorld (table_objs w) (booking_objs w ++ [obj])
                 (mkRestaurant
                    (_tables (restaurant w))
                    (_bookings (restaurant w) ++ [length (booking_objs w)])
                    (_next_table_id (restaurant w))
                    (_next_booking_id (restaurant w) + 1)))
          end
    end.
Proof. reflexivity. Qed.

Lemma init_fields now bid g p t s e obj :
  Booking_.__init__ now bid g p t s e = Ok obj →
  obj = mkBooking bid (strip g) (strip p) t s e true
  ∧ blank g = false ∧ blank p = false ∧ now ≤ s ∧ s < e.
Proof.
  unfold Booking_.__init__, Booking_.check_guest_name, Booking_.check_phone,
    Booking_.check_start_time, Booking_.check_end_time.
  destruct (blank g); [done |]. destruct (blank p); [done |]. simpl.
  destruct (s <? now) eqn:Hs; [done |]. simpl.
  destruct (e <=? s) eqn:He; [done |]. simpl.
  intros [= <-]. apply Z.ltb_ge in Hs. apply Z.leb_gt in He. done.
Qed.

(** C5: [create_booking] returns [None], changing nothing, when no table
    of the collection carries the id, and when the table found is
    occupied over the request: its flag is set, or an active booking on
    it overlaps [[s, e)].  Otherwise the booking is constructed with the
    next booking id; once constructed it is stored at a new address,
    appended to the booking collection and returned, its id differs from
    the id of every booking made before, and the next id moves on by
    one. *)
Theorem C5_create_booking
    (w : World) (now : Z) (g p : str) (tid : Z) (s e : Z) :
  wf w →
  let r := Restaurant_.create_booking w now g p tid s e in
  ((∀ t, t ∈ _tables (restaurant w) → table_id (tbl w t) ≠ tid) →
   r = (Ok None, w))
  ∧ (∀ t, Restaurant_.find_table_by_id w tid = Some t →
       (is_occupied (tbl w t) = true
        ∨ ∃ b, b ∈ _bookings (restaurant w) ∧ is_active (bkg w b) = true
               ∧ table (bkg w b) = t
               ∧ s < end_time (bkg w b) ∧ start_time (bkg w b) < e) →
       r = (Ok None, w))
  ∧ (∀ t, Restaurant_.find_table_by_id w tid = Some t →
       is_occupied (tbl w t) = false →
       (∀ b, b ∈ _bookings (restaurant w) → is_active (bkg w b) = true →
             table (bkg w b) = t →
             ¬ (s < end_time (bkg w b) ∧ start_time (bkg w b) < e)) →
       match Booking_.__init__ now (_next_booking_id (restaurant w))
                               g p t s e with
       | Raise err => r = (Raise err, w)
       | Ok obj =>
           ∃ b, r.1 = Ok (Some b)
                ∧ (b ∉ _bookings (restaurant w))
                ∧ booking_objs w !! b = None
                ∧ booking_objs r.2 !! b = Some obj
                ∧ _bookings (restaurant r.2) = _bookings (restaurant w) ++ [b]
                ∧ booking_id obj = _next_booking_id (restaurant w)
                ∧ (∀ b', b' ∈ _bookings (restaurant w) →
                         bkg r.2 b' = bkg w b'
                         ∧ booking_id (bkg w b') ≠ booking_id obj)
                ∧ _next_booking_id (restaurant r.2)
                  = _next_booking_id (restaurant w) + 1
                ∧ _tables (restaurant r.2) = _tables (restaurant w)
                ∧ _next_table_id (restaurant r.2)
                  = _next_table_id (restaurant w)
       end).
Proof.
  intros Hwf r. subst r. rewrite create_booking_eq.
  split; [| split].
  - intros Hnone. apply find_table_by_id_None in Hnone. by rewrite Hnone.
  - intros t -> Hocc. apply is_table_occupied_spec in Hocc. by rewrite Hocc.
  - intros t -> Hflag Hfree.
    assert (Hocc : Restaurant_._is_table_occupied w t s e = false).
    { apply not_true_is_false. rewrite is_table_occupied_spec.
      intros [H | (b & Hb & Hact & Htab & Hov)]; [congruence |].
      by apply (Hfree b). }
    rewrite Hocc.
    destruct (Booking_.__init__ _ _ _ _ _ _ _) as [obj | err] eqn:Hinit;
      [| done].
    apply init_fields in Hinit as (Hobj & _). simpl.
    exists (length (booking_objs w)).
    split; [done |].
    split; [apply fresh_not_elem, (wf_bookings_alloc _ Hwf) |].
    split; [by apply lookup_ge_None_2 |].
    split; [by rewrite lookup_app_r, Nat.sub_diag |].
    split; [done |]. split; [by rewrite Hobj |].
    split; [| done].
    intros b' Hb'.
    pose proof (wf_bookings_alloc _ Hwf) as Halloc.
    rewrite Forall_forall in Halloc. specialize (Halloc _ Hb').
    split.
    + unfold bkg; simpl. by rewrite lookup_total_app_l.
    + pose proof (wf_booking_ids _ Hwf) as Hids.
      rewrite Forall_forall in Hids.
      pose proof (bkg_alloc _ _ Halloc) as Hlk.
      apply list_elem_of_lookup_2 in Hlk. specialize (Hids _ Hlk).
      rewrite Hobj. simpl. lia.
Qed.

Lemma C5_create_booking_witness :
  let w := run world0 [AddTable [84%N] 4;
                       CreateBooking 0 [65%N] [43%N] 1 60 120] in
  Restaurant_.create_booking w 0 [66%N] [43%N] 9 60 120 = (Ok None, w)
  ∧ Restaurant_.create_booking w 0 [66%N] [43%N] 1 90 105 = (Ok None, w)
  ∧ ∃ b, (Restaurant_.create_booking w 0 [66%N] [43%N] 1 120 180).1
         = Ok (Some b)
         ∧ b ∉ _bookings (restaurant w).
Proof.
  intros w.
  pose proof (C5_create_booking w 0 [66%N] [43%N] 9 60 120 (wf_reachable _))
    as (Hnone & _).
  pose proof (C5_create_booking w 0 [66%N] [43%N] 1 90 105 (wf_reachable _))
    as (_ & Hocc & _).
  pose proof (C5_create_booking w 0 [66%N] [43%N] 1 120 180 (wf_reachable _))
    as (_ & _ & Hfree).
  split; [| split].
  - apply Hnone. intros t Ht.
    apply elem_of_cons in Ht as [-> | Ht]; [by vm_compute |].
    by apply not_elem_of_nil in Ht.
  - apply (Hocc 0%nat); [reflexivity |].
    right. exists 0%nat. split; [left |]. by vm_compute.
  - specialize (Hfree 0%nat eq_refl eq_refl).
    simpl in Hfree. destruct Hfree as (b & Hr & Hfresh & _).
    + intros b Hb _ _.
      apply elem_of_cons in Hb as [-> | Hb];
        [intros [Hlt _]; vm_compute in Hlt; discriminate |].
      by apply not_elem_of_nil in Hb.
    + exists b. split; [exact Hr | exact Hfresh].
Defined.

(** C10: when [create_booking] raises, the state is the one before the
    call: nothing was appended to the booking collection and the next
    booking id is the same.  It raises exactly when the table is known and
    free over the request and [Booking.__init__] raises, which it does for
    a blank guest name, a blank phone, a start time in the past or an end
    time not after the start time. *)
Theorem C10_create_booking_raise_keeps_state
    (w : World) (now : Z) (g p : str) (tid : Z) (s e : Z) (err : exn) :
  (Restaurant_.create_booking w now g p tid s e).1 = Raise err →
  (Restaurant_.create_booking w now g p tid s e).2 = w
  ∧ _bookings (restaurant (Restaurant_.create_booking w now g p tid s e).2)
    = _bookings (restaurant w)
  ∧ _next_booking_id
      (restaurant (Restaurant_.create_booking w now g p tid s e).2)
    = _next_booking_id (restaurant w)
  ∧ ∃ t, Restaurant_.find_table_by_id w tid = Some t
         ∧ Restaurant_._is_table_occupied w t s e = false
         ∧ Booking_.__init__ now (_next_booking_id (restaurant w)) g p t s e
           = Raise err
         ∧ (blank g = true ∨ blank p = true ∨ s < now ∨ e ≤ s).
Proof.
  rewrite create_booking_eq.
  destruct (Restaurant_.find_table_by_id w tid) as [t|]; [| done].
  destruct (Restaurant_._is_table_occupied w t s e) eqn:Hocc; [done |].
  destruct (Booking_.__init__ _ _ _ _ _ _ _) as [obj | err'] eqn:Hinit;
    [done |].
  simpl. intros [= ->]. repeat split. exists t.
  split; [done |]. split; [done |]. split; [done |].
  revert Hinit.
  unfold Booking_.__init__, Booking_.check_guest_name, Booking_.check_phone,
    Booking_.check_start_time, Booking_.check_end_time.
  destruct (blank g); [by left |]. destruct (blank p); [by auto |]. simpl.
  destruct (s <? now) eqn:Hs; [apply Z.ltb_lt in Hs; by auto |]. simpl.
  destruct (e <=? s) eqn:He; [apply Z.leb_le in He; by auto |]. done.
Qed.

Lemma create_booking_invalid_raises w now g p tid s e t :
  Restaurant_.find_table_by_id w tid = Some t →
  Restaurant_._is_table_occupied w t s e = false →
  blank g = true ∨ blank p = true ∨ s < now ∨ e ≤ s →
  is_Raise (Restaurant_.create_booking w now g p tid s e).1.
Proof.
  intros Hf Hocc Hbad. rewrite create_booking_eq, Hf, Hocc.
  destruct (Booking_.__init__ _ _ _ _ _ _ _) as [obj | err] eqn:Hinit;
    [| by eexists].
  apply init_fields in Hinit as (_ & Hg & Hp & Hs & He).
  destruct Hbad as [? | [? | [? | ?]]]; [congruence | congruence | lia | lia].
Qed.

Lemma C10_create_booking_raise_keeps_state_witness :
  let w := run world0 [AddTable [84%N] 4] in
  (Restaurant_.create_booking w 0 [32%N] [43%N] 1 60 120).1
    = Raise (ValueError "Guest name cannot be empty")
  ∧ (Restaurant_.create_booking w 0 [32%N] [43%N] 1 60 120).2 = w.
Proof.
  intros w. split; [reflexivity |].
  apply (C10_create_booking_raise_keeps_state w 0 [32%N] [43%N] 1 60 120
           (ValueError "Guest name cannot be empty")).
  reflexivity.
Defined.

(** ** The occupied flag *)

Lemma tbl_add_table w name seats t :
  is_occupied (tbl (Restaurant_.add_table w name seats).2 t)
  = is_occupied (tbl w t).
Proof.
  unfold tbl; simpl. rewrite !list_lookup_total_alt.
  destruct (decide (t < length (table_objs w))%nat) as [Hlt | Hge].
  - by rewrite lookup_app_l.
  - rewrite lookup_app_r by lia.
    rewrite (lookup_ge_None_2 (table_objs w)) by lia.
    by destruct (t - length (table_objs w))%nat as [|[|n]].
Qed.

Lemma tbl_cancel_occupied w b t :
  is_occupied (tbl (cancel w b) t) = true → is_occupied (tbl w t) = true.
Proof.
  unfold cancel. destruct (decide _) as [_ | _].
  - rewrite tbl_set_tbl. by destruct (decide _).
  - done.
Qed.

(** C8: a call of [create_booking] that returns a booking leaves every
    table object as it was, so the [is_occupied] flag and the
    [current_booking] of the target table are unchanged.  Of the
    Restaurant operations only [occupy_table_directly] turns a flag on: if
    a table is not occupied before an operation and occupied after it,
    the operation is [occupy_table_directly] on the id of that table. *)
Theorem C8_create_booking_keeps_tables
    (w : World) (now : Z) (g p : str) (tid : Z) (s e : Z) (b : bref) :
  (Restaurant_.create_booking w now g p tid s e).1 = Ok (Some b) →
  let w' := (Restaurant_.create_booking w now g p tid s e).2 in
  table_objs w' = table_objs w
  ∧ (∃ t, Restaurant_.find_table_by_id w tid = Some t
          ∧ table (bkg w' b) = t
          ∧ is_occupied (tbl w' t) = false
          ∧ is_occupied (tbl w' t) = is_occupied (tbl w t)
          ∧ current_booking (tbl w' t) = current_booking (tbl w t))
  ∧ (∀ (w0 : World) (op : Op) (t : tref),
       is_occupied (tbl w0 t) = false →
       is_occupied (tbl (step w0 op) t) = true →
       ∃ tid', op = OccupyTableDirectly tid'
               ∧ Restaurant_.find_table_by_id w0 tid' = Some t).
Proof.
  intros Hr w'. subst w'. revert Hr. rewrite create_booking_eq.
  split; [| split].
  - revert Hr. destruct (Restaurant_.find_table_by_id w tid); [| done].
    destruct (Restaurant_._is_table_occupied w t s e); [done |].
    by destruct (Booking_.__init__ _ _ _ _ _ _ _).
  - revert Hr.
    destruct (Restaurant_.find_table_by_id w tid) as [t|]; [| done].
    destruct (Restaurant_._is_table_occupied w t s e) eqn:Hocc; [done |].
    destruct (Booking_.__init__ _ _ _ _ _ _ _) as [obj|] eqn:Hinit;
      [| done].
    simpl. intros [= <-]. exists t. split; [done |].
    apply init_fields in Hinit as (-> & _). split.
    { unfold bkg; simpl.
      by rewrite list_lookup_total_middle. }
    split; [| done].
    apply not_true_is_false. intros Hflag.
    assert (Restaurant_._is_table_occupied w t s e = true); [| congruence].
    apply is_table_occupied_spec. by left.
  - clear. intros w op t Hoff Hon.
    destruct op as [n s | tid | now g p tid s e | tid | tid | bid];
      cbv beta iota delta [step] in Hon.
    + rewrite tbl_add_table in Hon. congruence.
    + assert (table_objs (Restaurant_.remove_table w tid).2 = table_objs w)
        as Heq.
      { unfold Restaurant_.remove_table.
        destruct (Restaurant_.find_table_by_id w tid) as [t'|]; [| done].
        destruct (is_occupied (tbl w t')); [done |]. simpl.
        by destruct (list_remove _ _). }
      unfold tbl in *. rewrite Heq in Hon. congruence.
    + assert (table_objs (Restaurant_.create_booking w now g p tid s e).2
              = table_objs w) as Heq.
      { rewrite create_booking_eq.
        destruct (Restaurant_.find_table_by_id w tid) as [t'|]; [| done].
        destruct (Restaurant_._is_table_occupied w t' s e); [done |].
        by destruct (Booking_.__init__ _ _ _ _ _ _ _). }
      unfold tbl in *. rewrite Heq in Hon. congruence.
    + exists tid. split; [done |]. revert Hon.
      unfold Restaurant_.occupy_table_directly.
      destruct (Restaurant_.find_table_by_id w tid) as [t'|];
        [| simpl; congruence].
      destruct (is_occupied (tbl w t')); simpl; [congruence |].
      rewrite tbl_set_tbl. destruct (decide _) as [[-> _] | _];
        [done | congruence].
    + revert Hon. unfold Restaurant_.release_table.
      destruct (Restaurant_.find_table_by_id w tid) as [t'|];
        [| simpl; congruence].
      destruct (is_occupied (tbl w t')); simpl; [| congruence].
      rewrite tbl_set_tbl. destruct (decide _); simpl; congruence.
    + revert Hon. unfold Restaurant_.cancel_booking.
      destruct (head _) as [b|]; [| simpl; congruence].
      destruct (is_active (bkg w b)); simpl; [| congruence].
      intros Hon%tbl_cancel_occupied. congruence.
Qed.

Lemma C8_create_booking_keeps_tables_witness :
  let w := run world0 [AddTable [84%N] 4] in
  let w' := (Restaurant_.create_booking w 0 [65%N] [43%N] 1 60 120).2 in
  table_objs w' = table_objs w
  ∧ is_occupied (tbl w' 0%nat) = false.
Proof.
  intros w w'.
  pose proof (C8_create_booking_keeps_tables
                w 0 [65%N] [43%N] 1 60 120 0%nat eq_refl) as (Heq & _).
  split; [exact Heq | reflexivity].
Defined.

(** ** Bookings and removed tables *)

Lemma table_set_tbl w t obj b :
  table (bkg (set_tbl w t obj) b) = table (bkg w b).
Proof. done. Qed.


Lemma restaurant_cancel w self : restaurant (cancel w self) = restaurant w.
Proof. unfold cancel. by destruct (decide _). Qed.




Lemma bookings_alloc w b :
  wf w → b ∈ _bookings (restaurant w) → (b < length (booking_objs w))%nat.
Proof.
  intros Hwf Hb. pose proof (wf_bookings_alloc _ Hwf) as H.
  rewrite Forall_forall in H. by apply H.
Qed.

Lemma table_ids_below_next w t :
  wf w → (t < length (table_objs w))%nat →
  table_id (tbl w t) < _next_table_id (restaurant w).
Proof.
  intros Hwf Hlt. pose proof (wf_table_ids _ Hwf) as Hids.
  rewrite Forall_forall in Hids.
  apply Hids. eapply list_elem_of_lookup_2. by apply tbl_alloc.
Qed.





(** * Further properties of the code *)

(** ** Stripping *)

Lemma lstrip_split s :
  ∃ l, s = l ++ lstrip s ∧ all_space l
       ∧ ∀ c, head (lstrip s) = Some c → isspace c = false.
Proof.
  induction s as [|c s (l & Hs & Hl & Hhd)]; simpl.
  - exists []. split; [done |]. split; [constructor | done].
  - destruct (isspace c) eqn:Hc.
    + exists (c :: l). split; [by rewrite Hs at 1 |].
      split; [by constructor | done].
    + exists []. split; [done |]. split; [constructor |].
      simpl. congruence.
Qed.

Lemma lstrip_nil_iff s : lstrip s = [] ↔ all_space s.
Proof.
  induction s as [|c s IH]; simpl; [split; [constructor | done] |].
  destruct (isspace c) eqn:Hc.
  - rewrite IH. split; [by constructor | by inversion 1].
  - split; [done |]. inversion 1; congruence.
Qed.

Lemma lstrip_id s :
  (∀ c, head s = Some c → isspace c = false) → lstrip s = s.
Proof.
  destruct s as [|c s]; [done |]. simpl. intros H. by rewrite (H c).
Qed.

Lemma head_rev_last {A} (l : list A) : head (rev l) = last l.
Proof.
  induction l as [|x l IH]; [done |]. simpl.
  destruct l as [|y l]; [done |].
  rewrite head_app. rewrite IH. simpl in *.
  by destruct (last (y :: l)) eqn:E; [| destruct (rev l); simpl in *].
Qed.

Lemma last_rev_head {A} (l : list A) : last (rev l) = head l.
Proof. by rewrite <- head_rev_last, rev_involutive. Qed.

Lemma all_space_rev s : all_space (rev s) ↔ all_space s.
Proof.
  unfold all_space. rewrite !Forall_forall.
  split; intros H c Hc; apply H.
  - by rewrite list_elem_of_In, <- in_rev, <- list_elem_of_In.
  - by rewrite list_elem_of_In, in_rev, <- list_elem_of_In.
Qed.

Lemma rstrip_split s :
  ∃ l, s = rstrip s ++ l ∧ all_space l
       ∧ ∀ c, last (rstrip s) = Some c → isspace c = false.
Proof.
  unfold rstrip. destruct (lstrip_split (rev s)) as (l & Hs & Hl & Hhd).
  exists (rev l). split; [| split].
  - rewrite <- rev_app_distr, <- Hs. by rewrite rev_involutive.
  - by apply all_space_rev.
  - intros c. rewrite last_rev_head. apply Hhd.
Qed.

Lemma strip_split s :
  ∃ l1 l2, s = l1 ++ strip s ++ l2 ∧ all_space l1 ∧ all_space l2
           ∧ (strip s = [] ∨ trimmed (strip s)).
Proof.
  unfold strip. destruct (lstrip_split s) as (l1 & Hs & Hl1 & Hhd).
  destruct (rstrip_split (lstrip s)) as (l2 & Hu & Hl2 & Hlast).
  exists l1, l2. split; [by rewrite <- Hu | ]. split; [done |].
  split; [done |].
  destruct (rstrip (lstrip s)) as [|c u] eqn:Hr; [by left |]. right.
  split; [done |]. split; [| done].
  intros c' [= <-]. apply Hhd. by rewrite Hu.
Qed.

Lemma strip_nil_iff s : strip s = [] ↔ all_space s.
Proof.
  destruct (strip_split s) as (l1 & l2 & Hs & Hl1 & Hl2 & Htrim). split.
  - intros Hnil. rewrite Hs, Hnil. unfold all_space.
    rewrite !Forall_app. by repeat split.
  - intros Hall. unfold strip.
    apply lstrip_nil_iff in Hall. by rewrite Hall.
Qed.

Lemma blank_iff s : blank s = true ↔ all_space s.
Proof.
  unfold blank. rewrite orb_true_iff, !negb_true_iff. split.
  - intros [H | H].
    + destruct s; [constructor | done].
    + apply strip_nil_iff. by destruct (strip s).
  - intros Hall. right. apply strip_nil_iff in Hall. by rewrite Hall.
Qed.

Lemma blank_false_trimmed s : blank s = false → trimmed (strip s).
Proof.
  intros Hb. destruct (strip_split s) as (_ & _ & _ & _ & _ & [Hnil | Ht]);
    [| done].
  apply strip_nil_iff, blank_iff in Hnil. congruence.
Qed.

Lemma strip_trimmed s : trimmed s → strip s = s.
Proof.
  intros (Hne & Hhd & Hlast). unfold strip. rewrite (lstrip_id _ Hhd).
  unfold rstrip. rewrite lstrip_id; [apply rev_involutive |].
  intros c. rewrite head_rev_last. apply Hlast.
Qed.

(** X1: the [name] setter of a table raises exactly for a value made of
    whitespace only (the empty string included).  Any other value is
    stored without its leading and trailing whitespace: what is stored is
    not empty, begins and ends with a character that is not whitespace,
    and stripping it again changes nothing; the other attributes stay. *)
Theorem X_table_set_name (self : Table) (value : str) :
  (all_space value →
   Table_.set_name self value
   = Raise (ValueError "Table name cannot be empty"))
  ∧ (¬ all_space value →
     ∃ obj l1 l2,
       Table_.set_name self value = Ok obj
       ∧ value = l1 ++ name obj ++ l2 ∧ all_space l1 ∧ all_space l2
       ∧ trimmed (name obj) ∧ strip (name obj) = name obj
       ∧ table_id obj = table_id self ∧ seats obj = seats self
       ∧ is_occupied obj = is_occupied self
       ∧ current_booking obj = current_booking self).
Proof.
  unfold Table_.set_name. split.
  - intros Hall. apply blank_iff in Hall. by rewrite Hall.
  - intros Hall. destruct (blank value) eqn:Hb;
      [by apply blank_iff in Hb |].
    destruct (strip_split value) as (l1 & l2 & Hs & Hl1 & Hl2 & _).
    pose proof (blank_false_trimmed _ Hb) as Ht.
    eexists _, l1, l2. split; [done |]. simpl.
    repeat split; try done; try apply Ht. by apply strip_trimmed.
Qed.

Lemma X_table_set_name_witness :
  Table_.set_name (Table_.__init__ 1 [87%N] 2) [32%N; 9%N]
    = Raise (ValueError "Table name cannot be empty")
  ∧ ∃ obj l1 l2,
      Table_.set_name (Table_.__init__ 1 [87%N] 2) [32%N; 86%N; 73%N; 10%N]
        = Ok obj
      ∧ [32%N; 86%N; 73%N; 10%N] = l1 ++ name obj ++ l2.
Proof.
  split.
  - apply (X_table_set_name (Table_.__init__ 1 [87%N] 2) [32%N; 9%N]).
    by repeat constructor.
  - destruct (proj2 (X_table_set_name (Table_.__init__ 1 [87%N] 2)
                       [32%N; 86%N; 73%N; 10%N]))
      as (obj & l1 & l2 & Hr & Hs & _).
    + intros Hall. inversion Hall as [|? ? _ Hall']. by inversion Hall'.
    + by exists obj, l1, l2.
Defined.

(** ** What a constructed booking looks like *)

Lemma init_valid now bid g p t s e obj :
  Booking_.__init__ now bid g p t s e = Ok obj → valid_booking obj.
Proof.
  intros (-> & Hg & Hp & Hs & He)%init_fields.
  split; simpl; [by apply blank_false_trimmed .. | done].
Qed.

(** X2: a booking that [Booking.__init__] returns is active, carries the
    id and the table it was given, starts no earlier than the clock
    reading of the construction and ends after it starts; its guest name
    and phone are the arguments without their leading and trailing
    whitespace, not empty, with a first and a last character that are
    not whitespace. *)
Theorem X_booking_init_valid
    (now bid : Z) (g p : str) (t : tref) (s e : Z) (obj : Booking) :
  Booking_.__init__ now bid g p t s e = Ok obj →
  valid_booking obj
  ∧ booking_id obj = bid ∧ table obj = t ∧ is_active obj = true
  ∧ start_time obj = s ∧ end_time obj = e ∧ now ≤ s
  ∧ (∃ l1 l2, g = l1 ++ guest_name obj ++ l2 ∧ all_space l1 ∧ all_space l2)
  ∧ (∃ l1 l2, p = l1 ++ phone obj ++ l2 ∧ all_space l1 ∧ all_space l2).
Proof.
  intros (-> & Hg & Hp & Hs & He)%init_fields. simpl.
  split; [| repeat split; try done].
  - split; simpl; [by apply blank_false_trimmed .. | done].
  - destruct (strip_split g) as (l1 & l2 & Hsg & Hg1 & Hg2 & _).
    by exists l1, l2.
  - destruct (strip_split p) as (l1 & l2 & Hsp & Hp1 & Hp2 & _).
    by exists l1, l2.
Qed.

Lemma X_booking_init_valid_witness :
  ∃ obj, Booking_.__init__ 5 1 [32%N; 65%N] [43%N; 55%N; 10%N] 0%nat 10 20
         = Ok obj
         ∧ valid_booking obj.
Proof.
  eexists. split; [reflexivity |].
  eapply (X_booking_init_valid 5 1 [32%N; 65%N] [43%N; 55%N; 10%N]
            0%nat 10 20).
  reflexivity.
Defined.

(** ** Looking tables up by id *)

Lemma filter_ext_in {A} (P Q : A → Prop)
    `{!∀ x, Decision (P x), !∀ x, Decision (Q x)} (l : list A) :
  (∀ x, x ∈ l → P x ↔ Q x) → filter P l = filter Q l.
Proof.
  induction l as [|a l IH]; [done |]. intros Hext.
  rewrite !filter_cons.
  rewrite IH by (intros x Hx; apply Hext; by right).
  destruct (decide (P a)) as [Hp | Hp], (decide (Q a)) as [Hq | Hq];
    try done; exfalso.
  - apply Hq, Hext; [left | done].
  - apply Hp, Hext; [left | done].
Qed.

Lemma table_id_inj w t1 t2 :
  wf w →
  (t1 < length (table_objs w))%nat → (t2 < length (table_objs w))%nat →
  table_id (tbl w t1) = table_id (tbl w t2) → t1 = t2.
Proof.
  intros Hwf H1 H2 Hid.
  pose proof (wf_table_ids_nodup _ Hwf) as Hnd.
  eapply NoDup_alt; [exact Hnd | |].
  - by rewrite list_lookup_fmap, (tbl_alloc _ _ H1).
  - rewrite list_lookup_fmap, (tbl_alloc _ _ H2). simpl. by rewrite Hid.
Qed.


Lemma tables_alloc w t :
  wf w → t ∈ _tables (restaurant w) → (t < length (table_objs w))%nat.
Proof.
  intros Hwf Ht. pose proof (wf_tables_alloc _ Hwf) as H.
  rewrite Forall_forall in H. by apply H.
Qed.

(** X3: in a well-formed state [find_table_by_id] is unambiguous: it
    returns a table exactly when that table is in the collection and
    carries the id, and no two tables of the collection carry the same
    id. *)
Theorem X_find_table_by_id_unique (w : World) (tid : Z) (t : tref) :
  wf w →
  (Restaurant_.find_table_by_id w tid = Some t ↔
     t ∈ _tables (restaurant w) ∧ table_id (tbl w t) = tid)
  ∧ (∀ t', t ∈ _tables (restaurant w) → t' ∈ _tables (restaurant w) →
           table_id (tbl w t) = table_id (tbl w t') → t = t').
Proof.
  intros Hwf.
  assert (Hinj : ∀ t1 t2, t1 ∈ _tables (restaurant w) →
                   t2 ∈ _tables (restaurant w) →
                   table_id (tbl w t1) = table_id (tbl w t2) → t1 = t2).
  { intros t1 t2 H1 H2. apply table_id_inj; [done | |]; by apply tables_alloc. }
  split; [| intros t'; apply Hinj].
  split; [apply find_table_by_id_Some |]. intros [Ht Hid].
  destruct (Restaurant_.find_table_by_id w tid) as [t'|] eqn:Hf.
  - apply find_table_by_id_Some in Hf as [Ht' Hid'].
    f_equal. apply Hinj; [done | done | congruence].
  - exfalso. rewrite find_table_by_id_None in Hf. by apply (Hf t).
Qed.

Lemma X_find_table_by_id_unique_witness :
  let w := run world0 [AddTable [65%N] 2; AddTable [66%N] 4] in
  Restaurant_.find_table_by_id w 2 = Some 1%nat
  ↔ 1%nat ∈ _tables (restaurant w) ∧ table_id (tbl w 1%nat) = 2.
Proof.
  intros w.
  apply (X_find_table_by_id_unique w 2 1%nat (wf_reachable _)).
Defined.

(** ** The effect of one operation *)

Lemma step_effect w op : effect w (step w op).
Proof.
  destruct op as [n s | tid | now g p tid s e | tid | tid | bid];
    cbv beta iota delta [step].
  - apply effect_add_table.
  - unfold Restaurant_.remove_table.
    destruct (Restaurant_.find_table_by_id w tid) as [t|] eqn:Hf;
      [| apply effect_none].
    destruct (is_occupied (tbl w t)) eqn:Hocc; [apply effect_none |].
    simpl. destruct (list_remove t _) as [l|] eqn:Hrm;
      [| apply effect_none].
    by eapply effect_remove_table.
  - rewrite create_booking_eq.
    destruct (Restaurant_.find_table_by_id w tid) as [t|] eqn:Hf;
      [| apply effect_none].
    destruct (Restaurant_._is_table_occupied w t s e) eqn:Hocc;
      [apply effect_none |].
    destruct (Booking_.__init__ _ _ _ _ _ _ _) as [obj|] eqn:Hinit;
      [| apply effect_none].
    by eapply effect_create_booking.
  - unfold Restaurant_.occupy_table_directly.
    destruct (Restaurant_.find_table_by_id w tid) as [t|] eqn:Hf;
      [| apply effect_none].
    destruct (is_occupied (tbl w t)) eqn:Hocc; [apply effect_none |].
    by eapply effect_occupy.
  - unfold Restaurant_.release_table.
    destruct (Restaurant_.find_table_by_id w tid) as [t|] eqn:Hf;
      [| apply effect_none].
    destruct (is_occupied (tbl w t)) eqn:Hocc; [| apply effect_none].
    by eapply effect_release.
  - unfold Restaurant_.cancel_booking.
    destruct (head _) as [b|] eqn:Hf; [| apply effect_none].
    destruct (is_active (bkg w b)) eqn:Hact; [| apply effect_none].
    by eapply effect_cancel.
Qed.

Lemma head_filter_elem {A} (P : A → Prop) `{!∀ x, Decision (P x)}
    (l : list A) (x : A) :
  head (filter P l) = Some x → x ∈ l ∧ P x.
Proof.
  intros (l1 & l2 & -> & HP & _)%head_filter_Some. split; [| done].
  rewrite elem_of_app. right. left.
Qed.

Lemma cancel_wf_eq w b :
  wf w → b ∈ _bookings (restaurant w) →
  cancel w b =
    mkWorld
      (if decide (current_booking (tbl w (table (bkg w b))) = Some b)
       then <[table (bkg w b) := Table_.release (tbl w (table (bkg w b)))]>
              (table_objs w)
       else table_objs w)
      (<[b := Booking_.deactivate (bkg w b)]> (booking_objs w))
      (restaurant w).
Proof.
  intros Hwf Hb. pose proof (bookings_alloc _ _ Hwf Hb) as Hlt.
  pose proof (bkg_alloc _ _ Hlt) as Hlk.
  pose proof (wf_booking_table _ Hwf) as Htab.
  rewrite Forall_forall in Htab.
  pose proof (Htab _ (list_elem_of_lookup_2 _ _ _ Hlk)) as Htlt.
  by apply cancel_eq; [| apply tbl_alloc].
Qed.

Lemma effect_wf w w' : wf w → effect w w' → wf w'.
Proof.
  intros Hwf Heff.
  destruct Heff as [| n s | tid t l Hf Hocc Hrm | now g p tid s e t obj Hf Hocc Hinit
                   | tid t Hf Hocc | tid t Hf Hocc | bid b Hf Hact].
  - done.
  - by apply wf_add_table.
  - pose proof (wf_remove_table w tid Hwf) as H.
    unfold Restaurant_.remove_table in H. by rewrite Hf, Hocc, Hrm in H.
  - pose proof (wf_create_booking w now g p tid s e Hwf) as H.
    rewrite create_booking_eq in H. by rewrite Hf, Hocc, Hinit in H.
  - by apply wf_set_tbl.
  - by apply wf_set_tbl.
  - by apply wf_cancel.
Qed.

(** ** What no operation changes *)

Lemma booking_objs_cancel w b :
  booking_objs (cancel w b)
  = <[b := Booking_.deactivate (bkg w b)]> (booking_objs w).
Proof. unfold cancel. by destruct (decide _). Qed.

Lemma table_objs_cancel w b :
  table_objs (cancel w b) = table_objs w
  ∨ ∃ t, table_objs (cancel w b)
         = <[t := Table_.release (tbl w t)]> (table_objs w).
Proof.
  unfold cancel. destruct (decide _); [| by left].
  right. by eexists.
Qed.

Lemma insert_same_table (l : list Table) t (f : Table → Table) t' obj :
  (∀ o, same_table o (f o)) →
  l !! t' = Some obj →
  ∃ obj', <[t := f (l !!! t)]> l !! t' = Some obj' ∧ same_table obj obj'.
Proof.
  intros Hf Hlk. rewrite list_lookup_insert.
  destruct (decide _) as [[-> _] | _].
  - rewrite (list_lookup_total_correct _ _ _ Hlk). by eexists.
  - by exists obj.
Qed.

Lemma effect_same_table w w' t obj :
  effect w w' → table_objs w !! t = Some obj →
  ∃ obj', table_objs w' !! t = Some obj' ∧ same_table obj obj'.
Proof.
  intros Heff Hlk.
  destruct Heff as [| n s | tid t0 l Hf Hocc Hrm
                   | now g p tid s e t0 obj0 Hf Hocc Hinit
                   | tid t0 Hf Hocc | tid t0 Hf Hocc | bid b Hf Hact];
    simpl; try by exists obj.
  - exists obj. split; [| done]. by apply lookup_app_l_Some.
  - by apply (insert_same_table _ _ (λ o, Table_.occupy o None)).
  - by apply (insert_same_table _ _ Table_.release).
  - destruct (table_objs_cancel w b) as [-> | [t0 ->]]; [by exists obj |].
    by apply (insert_same_table _ _ Table_.release).
Qed.

Lemma effect_same_booking w w' b obj :
  effect w w' → booking_objs w !! b = Some obj →
  ∃ obj', booking_objs w' !! b = Some obj' ∧ same_booking obj obj'.
Proof.
  intros Heff Hlk.
  assert (Hrefl : same_booking obj obj) by by repeat split.
  destruct Heff as [| n s | tid t0 l Hf Hocc Hrm
                   | now g p tid s e t0 obj0 Hf Hocc Hinit
                   | tid t0 Hf Hocc | tid t0 Hf Hocc | bid b0 Hf Hact];
    simpl; try by exists obj.
  - exists obj. split; [| done]. by apply lookup_app_l_Some.
  - rewrite booking_objs_cancel, list_lookup_insert.
    destruct (decide _) as [[-> _] | _]; [| by exists obj].
    rewrite (bkg_lookup _ _ _ Hlk). eexists. split; [done |].
    by repeat split.
Qed.

Lemma same_table_trans o1 o2 o3 :
  same_table o1 o2 → same_table o2 o3 → same_table o1 o3.
Proof. unfold same_table. intros (? & ? & ?) (? & ? & ?). by repeat split; congruence. Qed.

Lemma same_booking_trans o1 o2 o3 :
  same_booking o1 o2 → same_booking o2 o3 → same_booking o1 o3.
Proof.
  unfold same_booking.
  intros (? & ? & ? & ? & ? & ? & ?) (? & ? & ? & ? & ? & ? & ?).
  repeat split; try congruence. auto.
Qed.

(** X4: no sequence of Restaurant operations deallocates a table object
    or changes its id, its name or its number of seats. *)
Theorem X_run_keeps_table_identity
    (w : World) (ops : list Op) (t : tref) (obj : Table) :
  table_objs w !! t = Some obj →
  ∃ obj', table_objs (run w ops) !! t = Some obj'
          ∧ table_id obj' = table_id obj ∧ name obj' = name obj
          ∧ seats obj' = seats obj.
Proof.
  revert w obj. induction ops as [|op ops IH]; intros w obj Hlk.
  - by exists obj.
  - destruct (effect_same_table _ _ _ _ (step_effect w op) Hlk)
      as (obj1 & Hlk1 & H1).
    destruct (IH _ _ Hlk1) as (obj2 & Hlk2 & Hid & Hn & Hs).
    exists obj2. split; [done |].
    destruct H1 as (? & ? & ?). repeat split; congruence.
Qed.

Lemma X_run_keeps_table_identity_witness :
  let w := run world0 [AddTable [65%N] 2] in
  ∃ obj', table_objs (run w [OccupyTableDirectly 1; AddTable [66%N] 4;
                             RemoveTable 2; ReleaseTable 1]) !! 0%nat
          = Some obj'
          ∧ table_id obj' = 1 ∧ name obj' = [65%N] ∧ seats obj' = 2.
Proof.
  intros w.
  apply (X_run_keeps_table_identity w _ 0%nat (mkTable 1 [65%N] 2 false None)).
  reflexivity.
Defined.

(** X5: no sequence of Restaurant operations deallocates a booking
    object or changes its id, guest name, phone, table or times; the only
    change is from active to cancelled, and a cancelled booking stays
    cancelled. *)
Theorem X_run_keeps_booking_fields
    (w : World) (ops : list Op) (b : bref) (obj : Booking) :
  booking_objs w !! b = Some obj →
  ∃ obj', booking_objs (run w ops) !! b = Some obj'
          ∧ booking_id obj' = booking_id obj
          ∧ guest_name obj' = guest_name obj ∧ phone obj' = phone obj
          ∧ table obj' = table obj
          ∧ start_time obj' = start_time obj ∧ end_time obj' = end_time obj
          ∧ (is_active obj = false → is_active obj' = false).
Proof.
  revert w obj. induction ops as [|op ops IH]; intros w obj Hlk.
  - by exists obj.
  - destruct (effect_same_booking _ _ _ _ (step_effect w op) Hlk)
      as (obj1 & Hlk1 & H1).
    destruct (IH _ _ Hlk1) as (obj2 & Hlk2 & H2).
    exists obj2. split; [done |].
    destruct H1 as (? & ? & ? & ? & ? & ? & Ha1).
    destruct H2 as (? & ? & ? & ? & ? & ? & Ha2).
    repeat split; try congruence.
    intros Hoff. apply Ha2. apply not_true_is_false. intros Hon.
    apply Ha1 in Hon. congruence.
Qed.

Lemma X_run_keeps_booking_fields_witness :
  let w := run world0 [AddTable [65%N] 2;
                       CreateBooking 0 [71%N] [43%N] 1 10 20;
                       CancelBooking 1] in
  ∃ obj', booking_objs (run w [CreateBooking 0 [72%N] [43%N] 1 10 20;
                               CancelBooking 1; RemoveTable 1]) !! 0%nat
          = Some obj'
          ∧ is_active obj' = false.
Proof.
  intros w.
  destruct (X_run_keeps_booking_fields w
              [CreateBooking 0 [72%N] [43%N] 1 10 20;
               CancelBooking 1; RemoveTable 1] 0%nat
              (mkBooking 1 [71%N] [43%N] 0%nat 10 20 false) eq_refl)
    as (obj' & Hlk & _ & _ & _ & _ & _ & _ & Hoff).
  exists obj'. split; [exact Hlk | by apply Hoff].
Defined.

(** ** Invariants of the reachable states *)

Lemma lookup_insert_ind {A} (P : nat → A → Prop) (l : list A) i0 y :
  (∀ i x, l !! i = Some x → P i x) →
  (∀ x, l !! i0 = Some x → P i0 y) →
  ∀ i x, <[i0 := y]> l !! i = Some x → P i x.
Proof.
  intros Hl Hy i x. rewrite list_lookup_insert.
  destruct (decide _) as [[-> Hlt] | _]; [| apply Hl].
  intros [= <-]. destruct (lookup_lt_is_Some_2 _ _ Hlt) as [x Hx].
  by apply (Hy x).
Qed.

Lemma bkg_cancel w b0 b :
  bkg (cancel w b0) b =
    if decide (b0 = b ∧ (b0 < length (booking_objs w))%nat)
    then Booking_.deactivate (bkg w b0) else bkg w b.
Proof.
  unfold bkg at 1. rewrite booking_objs_cancel.
  rewrite list_lookup_total_alt, list_lookup_insert.
  destruct (decide _); [done |]. by rewrite <- list_lookup_total_alt.
Qed.

Lemma effect_sequential_ids w w' :
  effect w w' → sequential_ids w → sequential_ids w'.
Proof.
  intros Heff [Hti Htn Hbi Hbn Hbs].
  assert (Hins : ∀ t0 (f : Table → Table),
            (∀ o, table_id (f o) = table_id o) →
            ∀ t obj, <[t0 := f (tbl w t0)]> (table_objs w) !! t = Some obj →
                     table_id obj = Z.of_nat t + 1).
  { intros t0 f Hf. apply (lookup_insert_ind (λ t obj, table_id obj = _));
      [done |]. intros x Hx. rewrite Hf, (tbl_lookup _ _ _ Hx). by apply Hti. }
  destruct Heff as [| n s | tid t0 l Hf Hocc Hrm
                   | now g p tid s e t0 obj0 Hf Hocc Hinit
                   | tid t0 Hf Hocc | tid t0 Hf Hocc | bid b0 Hf Hact].
  - done.
  - split; simpl; rewrite ?length_app; simpl; try done; [| lia].
    intros t obj [Hlk | [Hge Hlk]]%lookup_app_Some; [by apply Hti |].
    destruct (t - length (table_objs w))%nat as [|k] eqn:Hk; [| done].
    injection Hlk as <-. simpl. lia.
  - by split.
  - split; simpl; rewrite ?length_app; simpl; try done.
    + intros b obj [Hlk | [Hge Hlk]]%lookup_app_Some; [by apply Hbi |].
      destruct (b - length (booking_objs w))%nat as [|k] eqn:Hk; [| done].
      injection Hlk as <-.
      apply init_fields in Hinit as (-> & _). simpl. lia.
    + lia.
    + rewrite Nat.add_1_r, seq_S. by rewrite Hbs.
  - split; simpl; rewrite ?length_insert; try done.
    by apply (Hins t0 (λ o, Table_.occupy o None)).
  - split; simpl; rewrite ?length_insert; try done.
    by apply (Hins t0 Table_.release).
  - split; rewrite ?booking_objs_cancel, ?restaurant_cancel,
      ?length_insert; try done.
    + destruct (table_objs_cancel w b0) as [-> | [t0 ->]]; [done |].
      by apply (Hins t0 Table_.release).
    + destruct (table_objs_cancel w b0) as [-> | [t0 ->]]; [done |].
      by rewrite length_insert.
    + apply (lookup_insert_ind (λ b obj, booking_id obj = _)); [done |].
      intros x Hx. simpl. rewrite (bkg_lookup _ _ _ Hx). by apply Hbi.
Qed.

Lemma effect_no_current_booking w w' :
  effect w w' → no_current_booking w → no_current_booking w'.
Proof.
  unfold no_current_booking. intros Heff Hno.
  destruct Heff as [| n s | tid t0 l Hf Hocc Hrm
                   | now g p tid s e t0 obj0 Hf Hocc Hinit
                   | tid t0 Hf Hocc | tid t0 Hf Hocc | bid b0 Hf Hact];
    simpl; try done.
  - apply Forall_app. split; [done |]. by repeat constructor.
  - by apply Forall_insert.
  - by apply Forall_insert.
  - destruct (table_objs_cancel w b0) as [-> | [t0 ->]]; [done |].
    by apply Forall_insert.
Qed.

Lemma effect_valid_bookings w w' :
  effect w w' →
  Forall valid_booking (booking_objs w) →
  Forall valid_booking (booking_objs w').
Proof.
  intros Heff Hv.
  destruct Heff as [| n s | tid t0 l Hf Hocc Hrm
                   | now g p tid s e t0 obj0 Hf Hocc Hinit
                   | tid t0 Hf Hocc | tid t0 Hf Hocc | bid b0 Hf Hact];
    simpl; try done.
  - apply Forall_app. split; [done |]. apply Forall_singleton.
    by eapply init_valid.
  - rewrite booking_objs_cancel.
    destruct (decide (b0 < length (booking_objs w))%nat) as [Hlt | Hge];
      [| by rewrite list_insert_ge by lia].
    apply Forall_insert; [done |].
    rewrite Forall_forall in Hv.
    destruct (Hv (bkg w b0)) as [Hg Hp Ht];
      [eapply list_elem_of_lookup_2, bkg_alloc; done |].
    by split.
Qed.

Lemma overlap_sym o1 o2 : overlap o1 o2 → overlap o2 o1.
Proof. unfold overlap. tauto. Qed.

Lemma effect_no_double_booking w w' :
  wf w → effect w w' → no_double_booking w → no_double_booking w'.
Proof.
  intros Hwf Heff Hno.
  destruct Heff as [| n s | tid t0 l Hf Hocc Hrm
                   | now g p tid s e t0 obj0 Hf Hocc Hinit
                   | tid t0 Hf Hocc | tid t0 Hf Hocc | bid b0 Hf Hact];
    try done.
  - (* create_booking *)
    apply init_fields in Hinit as (-> & _ & _ & _ & Hse).
    assert (Hold : ∀ b, b ∈ _bookings (restaurant w) →
              (booking_objs w
               ++ [mkBooking (_next_booking_id (restaurant w))
                     (strip g) (strip p) t0 s e true]) !!! b
              = bkg w b).
    { intros b Hb. apply lookup_total_app_l. by apply bookings_alloc. }
    assert (Hnew : ∀ b, b ∈ _bookings (restaurant w) →
              is_active (bkg w b) = true → table (bkg w b) = t0 →
              ¬ (s < end_time (bkg w b) ∧ start_time (bkg w b) < e)).
    { intros b Hb Hact Htab Hov.
      assert (Restaurant_._is_table_occupied w t0 s e = true);
        [| congruence].
      apply is_table_occupied_spec. right. by exists b. }
    intros b1 b2 Hb1 Hb2 Hne. unfold bkg, overlap. simpl in *.
    apply elem_of_app in Hb1 as [Hb1 | ->%list_elem_of_singleton];
      apply elem_of_app in Hb2 as [Hb2 | ->%list_elem_of_singleton];
      try done.
    + rewrite !Hold by done. by apply Hno.
    + rewrite (Hold b1) by done.
      rewrite list_lookup_total_middle by done. simpl.
      intros Ha1 _ Htab Hov. apply (Hnew b1); tauto.
    + rewrite (Hold b2) by done.
      rewrite list_lookup_total_middle by done. simpl.
      intros _ Ha2 Htab Hov. by apply (Hnew b2).
  - (* cancel *)
    intros b1 b2. rewrite restaurant_cancel, !bkg_cancel.
    intros Hb1 Hb2 Hne.
    destruct (decide (b0 = b1 ∧ _)); [done |].
    destruct (decide (b0 = b2 ∧ _)); [done |]. by apply Hno.
Qed.

Lemma run_invariant (P : World → Prop) :
  (∀ w w', wf w → effect w w' → P w → P w') →
  ∀ ops w, wf w → P w → P (run w ops).
Proof.
  intros Hstep ops. induction ops as [|op ops IH]; intros w Hwf HP; [done |].
  simpl. apply IH; [by apply wf_step |].
  eapply Hstep; [done | apply step_effect | done].
Qed.

(** X6: the ids count what was ever created.  In every state reached
    from a new restaurant the table object created k-th has id k and the
    next table id is one more than the number of tables ever added,
    removed ones included; the same holds of bookings, and the booking
    collection lists every booking ever created, cancelled ones included,
    in creation order. *)
Theorem X_reachable_sequential_ids (ops : list Op) :
  sequential_ids (run world0 ops).
Proof.
  apply (run_invariant sequential_ids); [| apply wf_world0 |].
  - intros w w' _. apply effect_sequential_ids.
  - by split.
Qed.

(** X7: no double booking.  In every state reached from a new
    restaurant, two distinct active bookings of the same table never
    overlap: one ends no later than the other starts. *)
Theorem X_reachable_no_double_booking (ops : list Op) :
  no_double_booking (run world0 ops)
  ∧ ∀ b1 b2,
      b1 ∈ Restaurant_.bookings (run world0 ops) →
      b2 ∈ Restaurant_.bookings (run world0 ops) →
      b1 ≠ b2 →
      table (bkg (run world0 ops) b1) = table (bkg (run world0 ops) b2) →
      end_time (bkg (run world0 ops) b1)
        ≤ start_time (bkg (run world0 ops) b2)
      ∨ end_time (bkg (run world0 ops) b2)
        ≤ start_time (bkg (run world0 ops) b1).
Proof.
  assert (Hno : no_double_booking (run world0 ops)).
  { apply (run_invariant no_double_booking); [| apply wf_world0 |].
    - intros w w'. apply effect_no_double_booking.
    - intros b1 b2 Hb1. by apply not_elem_of_nil in Hb1. }
  split; [done |]. intros b1 b2 Hb1 Hb2 Hne Htab.
  apply list_elem_of_filter in Hb1 as [Ha1 Hb1].
  apply list_elem_of_filter in Hb2 as [Ha2 Hb2].
  specialize (Hno b1 b2 Hb1 Hb2 Hne Ha1 Ha2 Htab). unfold overlap in Hno.
  lia.
Qed.

Lemma X_reachable_no_double_booking_witness :
  let w := run world0 [AddTable [65%N] 2;
                       CreateBooking 0 [71%N] [43%N] 1 10 20;
                       CreateBooking 0 [72%N] [43%N] 1 15 25;
                       CreateBooking 0 [73%N] [43%N] 1 20 30] in
  Restaurant_.bookings w = [0%nat; 1%nat]
  ∧ (end_time (bkg w 0%nat) ≤ start_time (bkg w 1%nat)
     ∨ end_time (bkg w 1%nat) ≤ start_time (bkg w 0%nat)).
Proof.
  intros w. split; [reflexivity |].
  apply (X_reachable_no_double_booking
           [AddTable [65%N] 2;
            CreateBooking 0 [71%N] [43%N] 1 10 20;
            CreateBooking 0 [72%N] [43%N] 1 15 25;
            CreateBooking 0 [73%N] [43%N] 1 20 30]).
  - by vm_compute; left.
  - by vm_compute; right; left.
  - discriminate.
  - reflexivity.
Defined.

(** X8: every booking a restaurant holds is valid.  In every state
    reached from a new restaurant each booking, cancelled or not, ends
    after it starts and has a trimmed, non-empty guest name and phone. *)
Theorem X_reachable_valid_bookings (ops : list Op) :
  Forall valid_booking (booking_objs (run world0 ops)).
Proof.
  apply (run_invariant (λ w, Forall valid_booking (booking_objs w)));
    [| apply wf_world0 | constructor].
  intros w w' _. apply effect_valid_bookings.
Qed.

(** X9: no Restaurant operation ever attaches a booking to a table: in
    every state reached from a new restaurant [current_booking] is [None]
    on every table.  So there [cancel_booking] never releases a table: it
    leaves all table objects as they are, and a table occupied by a
    walk-in stays occupied when bookings on it are cancelled. *)
Theorem X_reachable_cancel_keeps_tables (ops : list Op) (bid : Z) :
  no_current_booking (run world0 ops)
  ∧ table_objs (Restaurant_.cancel_booking (run world0 ops) bid).2
    = table_objs (run world0 ops).
Proof.
  assert (Hno : no_current_booking (run world0 ops)).
  { apply (run_invariant no_current_booking);
      [| apply wf_world0 | constructor].
    intros w w' _. apply effect_no_current_booking. }
  split; [done |].
  pose proof (wf_reachable ops) as Hwf.
  set (w := run world0 ops) in *.
  unfold Restaurant_.cancel_booking.
  destruct (head _) as [b|] eqn:Hf; [| done].
  destruct (is_active (bkg w b)); [| done]. simpl.
  apply head_filter_elem in Hf as [Hb _].
  rewrite (cancel_wf_eq _ _ Hwf Hb). simpl.
  destruct (decide _) as [Hcur | _]; [| done]. exfalso.
  pose proof (bookings_alloc _ _ Hwf Hb) as Hlt.
  pose proof (wf_booking_table _ Hwf) as Htab.
  rewrite Forall_forall in Htab.
  pose proof (Htab _ (list_elem_of_lookup_2 _ _ _ (bkg_alloc _ _ Hlt)))
    as Htlt.
  unfold no_current_booking in Hno. rewrite Forall_forall in Hno.
  rewrite (Hno _ (list_elem_of_lookup_2 _ _ _ (tbl_alloc _ _ Htlt))) in Hcur.
  done.
Qed.

(** ** Adding, finding and removing tables *)

Lemma find_table_by_id_iff w tid t :
  wf w →
  Restaurant_.find_table_by_id w tid = Some t ↔
    t ∈ _tables (restaurant w) ∧ table_id (tbl w t) = tid.
Proof.
  intros Hwf. split; [apply find_table_by_id_Some |]. intros [Ht Hid].
  destruct (Restaurant_.find_table_by_id w tid) as [t'|] eqn:Hf.
  - apply find_table_by_id_Some in Hf as [Ht' Hid'].
    f_equal. apply (table_id_inj w); [done | | | congruence];
      by apply tables_alloc.
  - exfalso. rewrite find_table_by_id_None in Hf. by apply (Hf t).
Qed.

Lemma find_table_by_id_ext w w' tid :
  _tables (restaurant w') = _tables (restaurant w) →
  (∀ t, t ∈ _tables (restaurant w) →
        table_id (tbl w' t) = table_id (tbl w t)) →
  Restaurant_.find_table_by_id w' tid = Restaurant_.find_table_by_id w tid.
Proof.
  intros Htabs Hids. unfold Restaurant_.find_table_by_id. rewrite Htabs.
  f_equal. apply filter_ext_in. intros t Ht. by rewrite Hids.
Qed.

(** X10: adding then finding.  In a well-formed state [add_table] gives
    the new table the next id, which no table of the collection carried
    before; afterwards [find_table_by_id] with that id returns the new
    table, which has the name and the seats given and is free, and every
    other id resolves as it did before. *)
Theorem X_add_table_then_find (w : World) (n : str) (s : Z) :
  wf w →
  let r := Restaurant_.add_table w n s in
  Restaurant_.find_table_by_id w (_next_table_id (restaurant w)) = None
  ∧ tbl r.2 r.1 = mkTable (_next_table_id (restaurant w)) n s false None
  ∧ Restaurant_.find_table_by_id r.2 (_next_table_id (restaurant w))
    = Some r.1
  ∧ (r.1 ∉ _tables (restaurant w))
  ∧ (∀ tid, tid ≠ _next_table_id (restaurant w) →
            Restaurant_.find_table_by_id r.2 tid
            = Restaurant_.find_table_by_id w tid).
Proof.
  intros Hwf r.
  assert (Hnew : tbl r.2 r.1
                 = mkTable (_next_table_id (restaurant w)) n s false None).
  { unfold tbl; simpl. by rewrite list_lookup_total_middle. }
  assert (Hold : ∀ t, t ∈ _tables (restaurant w) → tbl r.2 t = tbl w t).
  { intros t Ht. unfold tbl; simpl. apply lookup_total_app_l.
    by apply tables_alloc. }
  split; [| split; [done | split; [| split]]].
  - apply find_table_by_id_None. intros t Ht.
    pose proof (table_ids_below_next w t Hwf (tables_alloc _ _ Hwf Ht)). lia.
  - apply find_table_by_id_iff; [by apply wf_add_table |].
    split; [| by rewrite Hnew]. simpl. rewrite elem_of_app. right. left.
  - apply fresh_not_elem, (wf_tables_alloc _ Hwf).
  - intros tid Hne. unfold Restaurant_.find_table_by_id.
    change (_tables (restaurant r.2))
      with (_tables (restaurant w) ++ [r.1]).
    rewrite filter_app, filter_cons, filter_nil.
    destruct (decide (table_id (tbl r.2 r.1) = tid)) as [Hid | _];
      [rewrite Hnew in Hid; simpl in Hid; congruence |].
    rewrite app_nil_r. f_equal. apply filter_ext_in.
    intros t Ht. by rewrite Hold.
Qed.

Lemma X_add_table_then_find_witness :
  let w := run world0 [AddTable [65%N] 2; RemoveTable 1] in
  Restaurant_.find_table_by_id (Restaurant_.add_table w [66%N] 4).2 2
  = Some 1%nat.
Proof.
  intros w.
  pose proof (X_add_table_then_find w [66%N] 4 (wf_reachable _))
    as (_ & _ & Hfind & _).
  exact Hfind.
Defined.

Lemma effect_table_id w w' t :
  effect w w' → (t < length (table_objs w))%nat →
  table_id (tbl w' t) = table_id (tbl w t).
Proof.
  intros Heff Hlt.
  destruct (effect_same_table _ _ _ _ Heff (tbl_alloc _ _ Hlt))
    as (obj' & Hlk & Hid & _).
  by rewrite (tbl_lookup _ _ _ Hlk).
Qed.

Lemma effect_tables w w' t :
  effect w w' → t ∈ _tables (restaurant w') →
  t ∈ _tables (restaurant w)
  ∨ t = length (table_objs w)
    ∧ table_id (tbl w' t) = _next_table_id (restaurant w).
Proof.
  intros Heff.
  destruct Heff as [| n s | tid t0 l Hf Hocc Hrm
                   | now g p tid s e t0 obj0 Hf Hocc Hinit
                   | tid t0 Hf Hocc | tid t0 Hf Hocc | bid b0 Hf Hact];
    simpl; try by left.
  - intros [Ht | ->%list_elem_of_singleton]%elem_of_app; [by left |].
    right. split; [done |]. unfold tbl; simpl.
    by rewrite list_lookup_total_middle.
  - intros Ht. left.
    apply list_remove_first in Hrm as (l1 & l2 & -> & _ & ->).
    rewrite elem_of_app in Ht. rewrite elem_of_app, elem_of_cons. tauto.
  - rewrite restaurant_cancel. by left.
Qed.

Lemma effect_next_table_id w w' :
  effect w w' →
  _next_table_id (restaurant w) ≤ _next_table_id (restaurant w').
Proof.
  intros Heff.
  destruct Heff as [| n s | tid t0 l Hf Hocc Hrm
                   | now g p tid s e t0 obj0 Hf Hocc Hinit
                   | tid t0 Hf Hocc | tid t0 Hf Hocc | bid b0 Hf Hact];
    simpl; try lia.
  rewrite restaurant_cancel. lia.
Qed.

(** X11: table ids are never reused.  Once [remove_table] has removed the
    table with an id from a well-formed state, [find_table_by_id] finds
    no table under that id after any further sequence of operations,
    whatever tables are added. *)
Theorem X_removed_id_never_resolves (w : World) (tid : Z) (ops : list Op) :
  wf w →
  (Restaurant_.remove_table w tid).1 = Ok true →
  Restaurant_.find_table_by_id
    (run (Restaurant_.remove_table w tid).2 ops) tid = None.
Proof.
  intros Hwf Hr.
  set (Q := λ w' : World,
         tid < _next_table_id (restaurant w')
         ∧ ∀ t, t ∈ _tables (restaurant w') → table_id (tbl w' t) ≠ tid).
  assert (HQ : Q (run (Restaurant_.remove_table w tid).2 ops)).
  { apply (run_invariant Q).
    - intros w1 w2 Hwf1 Heff [Hlt Hne].
      pose proof (effect_next_table_id _ _ Heff) as Hmono.
      split; [lia |]. intros t Ht.
      destruct (effect_tables _ _ _ Heff Ht) as [Hold | [-> Hid]]; [| lia].
      rewrite (effect_table_id _ _ _ Heff (tables_alloc _ _ Hwf1 Hold)).
      by apply Hne.
    - by apply wf_remove_table.
    - revert Hr. unfold Restaurant_.remove_table.
      destruct (Restaurant_.find_table_by_id w tid) as [t|] eqn:Hf;
        [| done].
      destruct (is_occupied (tbl w t)); [done |]. simpl.
      destruct (list_remove t _) as [l|] eqn:Hrm; [| done]. intros _.
      apply find_table_by_id_Some in Hf as [Ht Hid].
      destruct (list_remove_NoDup _ _ _ (wf_tables_nodup _ Hwf) Hrm)
        as [_ Hin].
      split; simpl.
      + rewrite <- Hid.
        by apply table_ids_below_next, tables_alloc.
      + intros t' [Ht' Hne]%Hin Hid'. apply Hne.
        apply (table_id_inj w);
          [done | | | unfold tbl in *; simpl in *; congruence];
          by apply tables_alloc. }
  apply find_table_by_id_None, HQ.
Qed.

Lemma X_removed_id_never_resolves_witness :
  let w := run world0 [AddTable [65%N] 2] in
  Restaurant_.find_table_by_id
    (run (Restaurant_.remove_table w 1).2
         [AddTable [65%N] 2; AddTable [66%N] 4]) 1 = None.
Proof.
  intros w.
  apply (X_removed_id_never_resolves w 1 _ (wf_reachable _)).
  reflexivity.
Defined.

(** ** Availability *)

Lemma available_loop_filter w ts seats_wanted t_start t_end :
  Restaurant_.available_loop w ts seats_wanted t_start t_end
  = filter (λ t, Restaurant_.too_small w t seats_wanted = false
                 ∧ Restaurant_.busy w t t_start t_end = false) ts.
Proof.
  induction ts as [|t ts IH]; [done |]. simpl. rewrite filter_cons, IH.
  destruct (Restaurant_.too_small w t seats_wanted);
    destruct (Restaurant_.busy w t t_start t_end);
    destruct (decide _) as [[? ?] | Hn]; try done;
    exfalso; by apply Hn.
Qed.

(** X12: [get_available_tables] returns, in the order of the collection,
    exactly the tables that pass both tests.  A table is dropped for its
    size only when a non-zero number of seats is asked for and the table
    has fewer; it is dropped as occupied only when both times are given
    and [_is_table_occupied] holds over them.  With a time missing no
    table is dropped as occupied, not even one whose flag is set. *)
Theorem X_get_available_tables
    (w : World) (seats_wanted t_start t_end : option Z) (t : tref) :
  sublist (Restaurant_.get_available_tables w seats_wanted t_start t_end)
          (_tables (restaurant w))
  ∧ (t ∈ Restaurant_.get_available_tables w seats_wanted t_start t_end ↔
       t ∈ _tables (restaurant w)
       ∧ (∀ n, seats_wanted = Some n → n ≠ 0 → n ≤ seats (tbl w t))
       ∧ (∀ s e, t_start = Some s → t_end = Some e →
                 Restaurant_._is_table_occupied w t s e = false))
  ∧ (t_start = None ∨ t_end = None →
     Restaurant_.get_available_tables w seats_wanted t_start t_end
     = filter (λ t, Restaurant_.too_small w t seats_wanted = false)
              (_tables (restaurant w))).
Proof.
  unfold Restaurant_.get_available_tables. rewrite available_loop_filter.
  split; [apply sublist_filter | split].
  - rewrite list_elem_of_filter.
    assert (Hsmall : Restaurant_.too_small w t seats_wanted = false ↔
              ∀ n, seats_wanted = Some n → n ≠ 0 → n ≤ seats (tbl w t)).
    { destruct seats_wanted as [n|]; simpl; [| by split].
      rewrite andb_false_iff, negb_false_iff, Z.eqb_eq, Z.ltb_ge. split.
      - intros [-> | Hle] n' [= <-] Hne; [done | lia].
      - intros H. destruct (decide (n = 0)) as [-> | Hne]; [by left |].
        right. by apply H. }
    assert (Hbusy : Restaurant_.busy w t t_start t_end = false ↔
              ∀ s e, t_start = Some s → t_end = Some e →
                     Restaurant_._is_table_occupied w t s e = false).
    { destruct t_start as [s|], t_end as [e|]; simpl; try by split.
      split; [by intros H s' e' [= <-] [= <-] | intros H; by apply H]. }
    rewrite Hsmall, Hbusy. tauto.
  - intros Hmiss. apply filter_ext_in. intros t' _.
    assert (Restaurant_.busy w t' t_start t_end = false) as ->;
      [| tauto].
    by destruct Hmiss as [-> | ->]; [| destruct t_start].
Qed.

Lemma X_get_available_tables_witness :
  let w := run world0 [AddTable [65%N] 2; AddTable [66%N] 4;
                       OccupyTableDirectly 2] in
  Restaurant_.get_available_tables w (Some 0) None (Some 5)
  = filter (λ t, Restaurant_.too_small w t (Some 0) = false)
           (_tables (restaurant w)).
Proof.
  intros w.
  apply (X_get_available_tables w (Some 0) None (Some 5) 0%nat). by left.
Defined.

Lemma init_ok now bid g p t s e :
  blank g = false → blank p = false → now ≤ s → s < e →
  Booking_.__init__ now bid g p t s e
  = Ok (mkBooking bid (strip g) (strip p) t s e true).
Proof.
  intros Hg Hp Hs He.
  unfold Booking_.__init__, Booking_.check_guest_name, Booking_.check_phone,
    Booking_.check_start_time, Booking_.check_end_time.
  rewrite Hg, Hp. simpl. rewrite (proj2 (Z.ltb_ge _ _) Hs). simpl.
  by rewrite (proj2 (Z.leb_gt _ _) He).
Qed.

(** X13: a table offered can be booked.  In a well-formed state, if
    [get_available_tables] lists a table for an interval, then
    [create_booking] with the id of that table, the same interval and
    valid guest data returns a booking of that table, listed among the
    active bookings; after that the table is no longer offered for the
    interval. *)
Theorem X_available_table_can_be_booked
    (w : World) (seats_wanted : option Z) (s e : Z) (t : tref)
    (now : Z) (g p : str) :
  wf w →
  t ∈ Restaurant_.get_available_tables w seats_wanted (Some s) (Some e) →
  blank g = false → blank p = false → now ≤ s → s < e →
  let r := Restaurant_.create_booking w now g p (table_id (tbl w t)) s e in
  (∃ b, r.1 = Ok (Some b) ∧ table (bkg r.2 b) = t
        ∧ b ∈ Restaurant_.bookings r.2)
  ∧ (t ∉ Restaurant_.get_available_tables r.2 seats_wanted
                                           (Some s) (Some e)).
Proof.
  intros Hwf Hav Hg Hp Hs He r.
  unfold Restaurant_.get_available_tables in Hav.
  rewrite available_loop_filter, list_elem_of_filter in Hav.
  destruct Hav as [[_ Hfree] Ht]. simpl in Hfree.
  assert (Hf : Restaurant_.find_table_by_id w (table_id (tbl w t)) = Some t)
    by by apply find_table_by_id_iff.
  subst r. rewrite create_booking_eq, Hf, Hfree.
  rewrite (init_ok _ _ _ _ _ _ _ Hg Hp Hs He). simpl.
  set (obj := mkBooking _ _ _ _ _ _ _).
  set (w1 := mkWorld _ _ _).
  assert (Hobj : bkg w1 (length (booking_objs w)) = obj).
  { unfold bkg, w1; simpl. by rewrite list_lookup_total_middle. }
  assert (Hin : length (booking_objs w) ∈ _bookings (restaurant w1)).
  { simpl. rewrite elem_of_app. right. left. }
  split.
  - exists (length (booking_objs w)). split; [done |].
    rewrite Hobj. split; [done |].
    unfold Restaurant_.bookings. rewrite list_elem_of_filter.
    by rewrite Hobj.
  - unfold Restaurant_.get_available_tables.
    rewrite available_loop_filter, list_elem_of_filter. simpl.
    intros [[_ Hfree'] _].
    assert (Restaurant_._is_table_occupied w1 t s e = true); [| congruence].
    apply is_table_occupied_spec. right.
    exists (length (booking_objs w)). rewrite Hobj. simpl.
    by repeat split.
Qed.

Lemma X_available_table_can_be_booked_witness :
  let w := run world0 [AddTable [65%N] 2; AddTable [66%N] 4] in
  ∃ b, (Restaurant_.create_booking w 0 [71%N] [43%N]
          (table_id (tbl w 1%nat)) 10 20).1 = Ok (Some b).
Proof.
  intros w.
  destruct (X_available_table_can_be_booked w (Some 3) 10 20 1%nat
              0 [71%N] [43%N] (wf_reachable _))
    as [(b & Hb & _) _];
    [by vm_compute; left | reflexivity | reflexivity | lia | lia |].
  by exists b.
Defined.

(** ** Walk-in occupation *)

Lemma occupy_table_directly_true w tid :
  (Restaurant_.occupy_table_directly w tid).1 = true →
  ∃ t, Restaurant_.find_table_by_id w tid = Some t
       ∧ is_occupied (tbl w t) = false
       ∧ (Restaurant_.occupy_table_directly w tid).2
         = set_tbl w t (Table_.occupy (tbl w t) None).
Proof.
  unfold Restaurant_.occupy_table_directly.
  destruct (Restaurant_.find_table_by_id w tid) as [t|]; [| done].
  destruct (is_occupied (tbl w t)) eqn:Hocc; [done |]. by exists t.
Qed.

Lemma release_table_true w tid :
  (Restaurant_.release_table w tid).1 = true →
  ∃ t, Restaurant_.find_table_by_id w tid = Some t
       ∧ is_occupied (tbl w t) = true
       ∧ (Restaurant_.release_table w tid).2
         = set_tbl w t (Table_.release (tbl w t)).
Proof.
  unfold Restaurant_.release_table.
  destruct (Restaurant_.find_table_by_id w tid) as [t|]; [| done].
  destruct (is_occupied (tbl w t)) eqn:Hocc; [| done]. by exists t.
Qed.

Lemma find_table_by_id_set_tbl w t obj tid :
  table_id obj = table_id (tbl w t) →
  Restaurant_.find_table_by_id (set_tbl w t obj) tid
  = Restaurant_.find_table_by_id w tid.
Proof.
  intros Hid. apply find_table_by_id_ext; [done |].
  intros t' _. rewrite tbl_set_tbl.
  by destruct (decide _) as [[-> _] | _].
Qed.

Lemma find_alloc w tid t :
  wf w → Restaurant_.find_table_by_id w tid = Some t →
  (t < length (table_objs w))%nat.
Proof.
  intros Hwf [Ht _]%find_table_by_id_Some. by apply tables_alloc.
Qed.

Lemma tbl_set_tbl_eq w t obj :
  (t < length (table_objs w))%nat → tbl (set_tbl w t obj) t = obj.
Proof. intros Hlt. rewrite tbl_set_tbl. by rewrite decide_True. Qed.

(** X14: a walk-in blocks the table.  After a successful
    [occupy_table_directly] in a well-formed state the table is occupied
    with no booking attached; every [create_booking] for its id returns
    [None] and changes nothing, whatever the interval and the guest data;
    the table is not offered by [get_available_tables] for any interval;
    and a second [occupy_table_directly] returns [False]. *)
Theorem X_walk_in_blocks_table (w : World) (tid : Z) :
  wf w →
  (Restaurant_.occupy_table_directly w tid).1 = true →
  let w' := (Restaurant_.occupy_table_directly w tid).2 in
  ∃ t, Restaurant_.find_table_by_id w' tid = Some t
       ∧ is_occupied (tbl w' t) = true
       ∧ current_booking (tbl w' t) = None
       ∧ (∀ now g p s e,
            Restaurant_.create_booking w' now g p tid s e = (Ok None, w'))
       ∧ (∀ seats_wanted s e,
            t ∉ Restaurant_.get_available_tables w' seats_wanted
                                                  (Some s) (Some e))
       ∧ Restaurant_.occupy_table_directly w' tid = (false, w').
Proof.
  intros Hwf (t & Hf & Hocc & Hw')%occupy_table_directly_true w'.
  subst w'. rewrite Hw'. clear Hw'.
  set (w' := set_tbl w t (Table_.occupy (tbl w t) None)).
  assert (Hlt : (t < length (table_objs w))%nat).
  { by eapply find_alloc. }
  assert (Hf' : Restaurant_.find_table_by_id w' tid = Some t).
  { unfold w'. by rewrite find_table_by_id_set_tbl. }
  assert (Ht' : tbl w' t = Table_.occupy (tbl w t) None)
    by by apply tbl_set_tbl_eq.
  assert (Hbusy : ∀ s e, Restaurant_._is_table_occupied w' t s e = true).
  { intros s e. apply is_table_occupied_spec. left. by rewrite Ht'. }
  exists t. split; [done |]. rewrite Ht'. split; [done |]. split; [done |].
  split; [| split].
  - intros now g p s e. by rewrite create_booking_eq, Hf', Hbusy.
  - intros seats_wanted s e. unfold Restaurant_.get_available_tables.
    rewrite available_loop_filter, list_elem_of_filter. simpl.
    rewrite Hbusy. by intros [[_ ?] _].
  - unfold Restaurant_.occupy_table_directly. by rewrite Hf', Ht'.
Qed.

Lemma X_walk_in_blocks_table_witness :
  let w := run world0 [AddTable [65%N] 2] in
  let w' := (Restaurant_.occupy_table_directly w 1).2 in
  Restaurant_.create_booking w' 0 [71%N] [43%N] 1 10 20 = (Ok None, w').
Proof.
  intros w w'.
  destruct (X_walk_in_blocks_table w 1 (wf_reachable _) eq_refl)
    as (t & _ & _ & _ & Hcreate & _).
  apply Hcreate.
Defined.

(** X15: occupying and releasing undo each other.  In a well-formed
    state where no table has a booking attached, a successful
    [occupy_table_directly] followed by [release_table] on the same id
    succeeds and gives back the state before, and so does a successful
    [release_table] followed by [occupy_table_directly]; a second
    [release_table] returns [False]. *)
Theorem X_occupy_release_round_trip (w : World) (tid : Z) :
  wf w → no_current_booking w →
  ((Restaurant_.occupy_table_directly w tid).1 = true →
   Restaurant_.release_table (Restaurant_.occupy_table_directly w tid).2 tid
   = (true, w))
  ∧ ((Restaurant_.release_table w tid).1 = true →
     Restaurant_.occupy_table_directly (Restaurant_.release_table w tid).2 tid
     = (true, w)
     ∧ Restaurant_.release_table (Restaurant_.release_table w tid).2 tid
       = (false, (Restaurant_.release_table w tid).2)).
Proof.
  intros Hwf Hno.
  assert (Hcur : ∀ t, (t < length (table_objs w))%nat →
            current_booking (tbl w t) = None).
  { intros t Hlt. unfold no_current_booking in Hno.
    rewrite Forall_forall in Hno. apply Hno.
    eapply list_elem_of_lookup_2. by apply tbl_alloc. }
  assert (Hback : ∀ t obj obj', (t < length (table_objs w))%nat →
            obj' = tbl w t → set_tbl (set_tbl w t obj) t obj' = w).
  { intros t obj obj' Hlt ->. unfold set_tbl; simpl.
    rewrite list_insert_insert_eq, list_insert_id by by apply tbl_alloc.
    by destruct w. }
  split.
  - intros (t & Hf & Hocc & ->)%occupy_table_directly_true.
    assert (Hlt : (t < length (table_objs w))%nat).
    { by eapply find_alloc. }
    unfold Restaurant_.release_table.
    rewrite find_table_by_id_set_tbl, Hf by done.
    rewrite tbl_set_tbl_eq by done. simpl. f_equal.
    apply Hback; [done |]. specialize (Hcur t Hlt).
    destruct (tbl w t). simpl in *. by subst.
  - intros (t & Hf & Hocc & ->)%release_table_true.
    assert (Hlt : (t < length (table_objs w))%nat).
    { by eapply find_alloc. }
    split.
    + unfold Restaurant_.occupy_table_directly.
      rewrite find_table_by_id_set_tbl, Hf by done.
      rewrite tbl_set_tbl_eq by done. simpl. f_equal.
      apply Hback; [done |]. specialize (Hcur t Hlt).
      destruct (tbl w t). simpl in *. by subst.
    + unfold Restaurant_.release_table.
      rewrite find_table_by_id_set_tbl, Hf by done.
      by rewrite tbl_set_tbl_eq.
Qed.

Lemma X_occupy_release_round_trip_witness :
  let w := run world0 [AddTable [65%N] 2] in
  Restaurant_.release_table (Restaurant_.occupy_table_directly w 1).2 1
  = (true, w).
Proof.
  intros w.
  apply (X_occupy_release_round_trip w 1 (wf_reachable _)).
  - by repeat constructor.
  - reflexivity.
Defined.

(** ** Cancelling and booking again *)


Lemma cancel_booking_true w bid :
  (Restaurant_.cancel_booking w bid).1 = true →
  ∃ b, head (filter (λ b, booking_id (bkg w b) = bid)
                    (_bookings (restaurant w))) = Some b
       ∧ is_active (bkg w b) = true
       ∧ (Restaurant_.cancel_booking w bid).2 = cancel w b.
Proof.
  unfold Restaurant_.cancel_booking.
  destruct (head _) as [b|]; [| done].
  destruct (is_active (bkg w b)) eqn:Hact; [| done]. by exists b.
Qed.

Lemma cancel_booking_ids w b0 bid :
  filter (λ b, booking_id (bkg (cancel w b0) b) = bid)
         (_bookings (restaurant (cancel w b0)))
  = filter (λ b, booking_id (bkg w b) = bid) (_bookings (restaurant w)).
Proof.
  rewrite restaurant_cancel. apply filter_ext_in. intros b _.
  rewrite bkg_cancel. by destruct (decide _) as [[-> _] | _].
Qed.

(** X16: cancelling is final.  After a successful [cancel_booking] in a
    well-formed state the booking is still in the booking collection but
    inactive and absent from the [bookings] listing, the collection and
    the next ids are unchanged, and a second [cancel_booking] with the
    same id returns [False] and changes nothing. *)
Theorem X_cancel_booking_twice (w : World) (bid : Z) :
  wf w →
  (Restaurant_.cancel_booking w bid).1 = true →
  let w' := (Restaurant_.cancel_booking w bid).2 in
  restaurant w' = restaurant w
  ∧ (∃ b, b ∈ _bookings (restaurant w') ∧ booking_id (bkg w' b) = bid
          ∧ is_active (bkg w b) = true ∧ is_active (bkg w' b) = false
          ∧ b ∈ Restaurant_.bookings w ∧ b ∉ Restaurant_.bookings w')
  ∧ Restaurant_.cancel_booking w' bid = (false, w').
Proof.
  intros Hwf (b & Hf & Hact & Hw')%cancel_booking_true w'.
  subst w'. rewrite Hw'. clear Hw'.
  pose proof (head_filter_elem _ _ _ Hf) as [Hb Hid].
  pose proof (bookings_alloc _ _ Hwf Hb) as Hlt.
  assert (Hoff : bkg (cancel w b) b = Booking_.deactivate (bkg w b)).
  { rewrite bkg_cancel. by rewrite decide_True. }
  split; [apply restaurant_cancel |]. split.
  - exists b. rewrite restaurant_cancel, Hoff. simpl.
    repeat split; try done.
    + unfold Restaurant_.bookings. by rewrite list_elem_of_filter.
    + unfold Restaurant_.bookings. rewrite list_elem_of_filter, Hoff.
      by intros [? _].
  - unfold Restaurant_.cancel_booking.
    rewrite cancel_booking_ids, Hf, Hoff. done.
Qed.

Lemma X_cancel_booking_twice_witness :
  let w := run world0 [AddTable [65%N] 2;
                       CreateBooking 0 [71%N] [43%N] 1 10 20] in
  let w' := (Restaurant_.cancel_booking w 1).2 in
  Restaurant_.cancel_booking w' 1 = (false, w').
Proof.
  intros w w'.
  apply (X_cancel_booking_twice w 1 (wf_reachable _) eq_refl).
Defined.

Lemma create_booking_Some w now g p tid s e b :
  (Restaurant_.create_booking w now g p tid s e).1 = Ok (Some b) →
  ∃ t, Restaurant_.find_table_by_id w tid = Some t
       ∧ Restaurant_._is_table_occupied w t s e = false
       ∧ blank g = false ∧ blank p = false ∧ now ≤ s ∧ s < e
       ∧ b = length (booking_objs w)
       ∧ (Restaurant_.create_booking w now g p tid s e).2
         = mkWorld (table_objs w)
             (booking_objs w
              ++ [mkBooking (_next_booking_id (restaurant w))
                    (strip g) (strip p) t s e true])
             (mkRestaurant (_tables (restaurant w))
                (_bookings (restaurant w) ++ [length (booking_objs w)])
                (_next_table_id (restaurant w))
                (_next_booking_id (restaurant w) + 1)).
Proof.
  rewrite create_booking_eq.
  destruct (Restaurant_.find_table_by_id w tid) as [t|]; [| done].
  destruct (Restaurant_._is_table_occupied w t s e) eqn:Hocc; [done |].
  destruct (Booking_.__init__ _ _ _ _ _ _ _) as [obj|] eqn:Hinit;
    [| done].
  apply init_fields in Hinit as (-> & Hg & Hp & Hs & He).
  simpl. intros [= <-]. by exists t.
Qed.



(** ** The listing of active bookings *)

(** X18: the [bookings] property lists exactly the active bookings of
    the collection, in creation order.  In a well-formed state a booking
    that [create_booking] returns is added at the end of the listing, and
    a successful [cancel_booking] takes the booking with that id out of
    the listing and leaves the rest in place. *)
Theorem X_bookings_listing (w : World) :
  wf w →
  sublist (Restaurant_.bookings w) (_bookings (restaurant w))
  ∧ (∀ b, b ∈ Restaurant_.bookings w ↔
          b ∈ _bookings (restaurant w) ∧ is_active (bkg w b) = true)
  ∧ (∀ now g p tid s e b,
       (Restaurant_.create_booking w now g p tid s e).1 = Ok (Some b) →
       Restaurant_.bookings (Restaurant_.create_booking w now g p tid s e).2
       = Restaurant_.bookings w ++ [b])
  ∧ (∀ bid,
       (Restaurant_.cancel_booking w bid).1 = true →
       ∃ b, b ∈ Restaurant_.bookings w ∧ booking_id (bkg w b) = bid
            ∧ Restaurant_.bookings (Restaurant_.cancel_booking w bid).2
              = filter (λ x, x ≠ b) (Restaurant_.bookings w)).
Proof.
  intros Hwf. unfold Restaurant_.bookings.
  split; [apply sublist_filter |].
  split; [intros b; rewrite list_elem_of_filter; tauto |]. split.
  - intros now g p tid s e b
      (t & _ & _ & _ & _ & _ & _ & -> & ->)%create_booking_Some.
    set (w1 := mkWorld _ _ _).
    assert (Hnew : is_active (bkg w1 (length (booking_objs w))) = true).
    { unfold bkg, w1; simpl. by rewrite list_lookup_total_middle. }
    change (_bookings (restaurant w1))
      with (_bookings (restaurant w) ++ [length (booking_objs w)]).
    rewrite filter_app, filter_cons, filter_nil.
    rewrite decide_True by done. f_equal.
    apply filter_ext_in. intros b Hb. unfold bkg, w1; simpl.
    rewrite lookup_total_app_l; [done |]. by apply bookings_alloc.
  - intros bid (b & Hf & Hact & ->)%cancel_booking_true.
    pose proof (head_filter_elem _ _ _ Hf) as [Hb Hid].
    exists b. split; [by rewrite list_elem_of_filter |]. split; [done |].
    rewrite restaurant_cancel, list_filter_filter.
    apply filter_ext_in. intros x Hx. rewrite bkg_cancel.
    destruct (decide _) as [[-> _] | Hn]; simpl.
    + split; [done | tauto].
    + split; [| tauto]. intros Hax. split; [| done]. intros ->.
      apply Hn. split; [done |]. by apply bookings_alloc.
Qed.

Lemma X_bookings_listing_witness :
  let w := run world0 [AddTable [65%N] 2;
                       CreateBooking 0 [71%N] [43%N] 1 10 20] in
  Restaurant_.bookings
    (Restaurant_.create_booking w 0 [72%N] [43%N] 1 20 30).2
  = Restaurant_.bookings w ++ [1%nat].
Proof.
  intros w.
  pose proof (X_bookings_listing w (wf_reachable _)) as (_ & _ & Hc & _).
  by apply Hc.
Defined.

(** ** utils.py *)

Lemma on_the_hour_spec dt :
  Utils.on_the_hour dt ≤ dt
  ∧ dt < Utils.on_the_hour dt + Utils.hour
  ∧ Utils.on_the_hour dt `mod` Utils.hour = 0.
Proof.
  unfold Utils.on_the_hour.
  assert (Hpos : 0 < Utils.hour) by done.
  pose proof (Z.mod_pos_bound dt _ Hpos) as Hb.
  split; [lia |]. split; [lia |].
  rewrite (Z.div_mod dt Utils.hour) at 1 by lia.
  replace (Utils.hour * (dt `div` Utils.hour) + dt `mod` Utils.hour
           - dt `mod` Utils.hour)
    with ((dt `div` Utils.hour) * Utils.hour) by lia.
  apply Z.mod_mul. lia.
Qed.

Lemma datetime_add_Some dt delta :
  0 ≤ dt + delta ≤ Utils.datetime_max →
  Utils.datetime_add dt delta = Some (dt + delta).
Proof.
  intros [H0 H1]. unfold Utils.datetime_add. cbv zeta.
  apply Z.leb_le in H0, H1. by rewrite H0, H1.
Qed.

Lemma datetime_add_None dt delta :
  Utils.datetime_max < dt + delta → Utils.datetime_add dt delta = None.
Proof.
  intros H. unfold Utils.datetime_add. cbv zeta.
  apply Z.leb_gt in H. rewrite H. by rewrite andb_false_r.
Qed.

(** The full hours are kept in order by [on_the_hour]. *)
Lemma on_the_hour_lower k dt :
  k * Utils.hour ≤ dt → k * Utils.hour ≤ Utils.on_the_hour dt.
Proof.
  intros H. unfold Utils.on_the_hour.
  assert (Hpos : 0 < Utils.hour) by done.
  assert (Hk : k ≤ dt `div` Utils.hour)
    by (apply Z.div_le_lower_bound; lia).
  pose proof (Z.div_mod dt Utils.hour) as Hdm.
  replace (dt - dt `mod` Utils.hour)
    with (Utils.hour * (dt `div` Utils.hour)) by lia.
  nia.
Qed.

(** X19: the default booking times.  For a clock reading [now] that is a
    [datetime]: earlier than two hours before the end of the year 9999,
    [get_default_booking_times] returns a start on the full hour, later
    than the clock reading and at most one hour after it, and an end
    exactly one hour after the start, both of them [datetime]s; a
    booking over these times is then accepted by [Booking.__init__] for
    any non-blank guest name and phone, as long as it is constructed no
    later than the default start.  In the last two hours of the year
    9999 the function raises [OverflowError] and returns nothing. *)
Theorem X_default_booking_times (now : Z) :
  0 ≤ now ≤ Utils.datetime_max →
  (now < Utils.datetime_max + 1 - 2 * Utils.hour →
   ∃ start_time end_time,
     Utils.get_default_booking_times now = Some (start_time, end_time)
     ∧ now < start_time ∧ start_time ≤ now + Utils.hour
     ∧ start_time `mod` Utils.hour = 0
     ∧ end_time = start_time + Utils.hour
     ∧ end_time ≤ Utils.datetime_max
     ∧ (∀ now' bid g p t,
          now' ≤ start_time → blank g = false → blank p = false →
          Booking_.__init__ now' bid g p t start_time end_time
          = Ok (mkBooking bid (strip g) (strip p) t
                  start_time end_time true)))
  ∧ (Utils.datetime_max + 1 - 2 * Utils.hour ≤ now →
     Utils.get_default_booking_times now = None).
Proof.
  intros [Hnow0 Hnow1].
  assert (Hpos : 0 < Utils.hour) by done.
  destruct (on_the_hour_spec (now + Utils.hour)) as (Hle & Hlt & Hmod).
  pose proof (on_the_hour_lower 0 (now + Utils.hour)) as H0.
  unfold Utils.get_default_booking_times. split.
  - intros Hearly.
    exists (Utils.on_the_hour (now + Utils.hour)),
           (Utils.on_the_hour (now + Utils.hour) + Utils.hour).
    rewrite datetime_add_Some by lia. simpl.
    rewrite datetime_add_Some by lia. simpl.
    split; [done |]. split; [lia |]. split; [lia |]. split; [done |].
    split; [done |]. split; [lia |].
    intros now' bid g p t Hnow Hg Hp. apply init_ok; try done. lia.
  - intros Hlate.
    destruct (decide (now + Utils.hour ≤ Utils.datetime_max)) as [Hin | Hout].
    + rewrite datetime_add_Some by lia. simpl.
      rewrite datetime_add_None; [done |].
      pose proof (on_the_hour_lower 87649415 (now + Utils.hour)) as Hk.
      unfold Utils.datetime_max, Utils.hour in *. lia.
    + by rewrite datetime_add_None by lia.
Qed.

Lemma X_default_booking_times_witness :
  (∃ start_time end_time,
     Utils.get_default_booking_times 5400000000
     = Some (start_time, end_time)
     ∧ start_time = 7200000000 ∧ end_time = 10800000000
     ∧ Booking_.__init__ 5400000000 1 [71%N] [43%N] 0%nat
         start_time end_time
       = Ok (mkBooking 1 [71%N] [43%N] 0%nat start_time end_time true))
  ∧ Utils.get_default_booking_times 315537896700000000 = None.
Proof.
  split.
  - destruct (X_default_booking_times 5400000000) as [Hearly _];
      [by vm_compute |].
    destruct Hearly as (s & e & Heq & Hlt & _ & _ & _ & _ & Hinit);
      [by vm_compute |].
    exists s, e. split; [done |].
    assert (Hse : s = 7200000000 ∧ e = 10800000000)
      by (vm_compute in Heq; by injection Heq as <- <-).
    split; [apply Hse |]. split; [apply Hse |].
    apply (Hinit 5400000000 1 [71%N] [43%N] 0%nat); [lia | done | done].
  - apply (X_default_booking_times 315537896700000000); by vm_compute.
Defined.

(** X20: [validate_phone] counts the digits and plus signs of the phone
    and ignores every other character.  A phone it accepts has at least
    ten characters and, digits not being whitespace, also passes the
    phone check of [Booking]; plus signs alone are enough, so a phone of
    ten or more plus signs and no digit is accepted. *)
Theorem X_validate_phone (isdigit : N → bool) (phone : str) :
  (∀ c, isdigit c = true → isspace c = false) →
  (Utils.validate_phone isdigit phone = true →
   (10 ≤ length phone)%nat ∧ blank phone = false)
  ∧ (∀ l1 l2, Utils.validate_phone isdigit phone = true →
              Utils.validate_phone isdigit (l1 ++ phone ++ l2) = true)
  ∧ (∀ c, isdigit c = false → c ≠ 43%N →
          Utils.validate_phone isdigit (c :: phone)
          = Utils.validate_phone isdigit phone)
  ∧ (∀ n, (10 ≤ n)%nat →
          Utils.validate_phone isdigit (replicate n 43%N) = true).
Proof.
  intros Hdigit. unfold Utils.validate_phone.
  split; [| split; [| split]].
  - intros Hlen%Nat.leb_le.
    pose proof (length_filter (λ c, isdigit c = true ∨ c = 43%N) phone).
    split; [lia |]. apply not_true_is_false. intros Hall%blank_iff.
    destruct (filter _ phone) as [|c l] eqn:Hfl; [simpl in Hlen; lia |].
    assert (Hc : c ∈ filter (λ c, isdigit c = true ∨ c = 43%N) phone)
      by (rewrite Hfl; left).
    apply list_elem_of_filter in Hc as [Hc Hin].
    unfold all_space in Hall. rewrite Forall_forall in Hall.
    specialize (Hall _ Hin).
    destruct Hc as [Hc | ->]; [rewrite (Hdigit _ Hc) in Hall |]; done.
  - intros l1 l2 Hlen%Nat.leb_le. apply Nat.leb_le.
    rewrite !filter_app, !length_app. lia.
  - intros c Hc Hne. rewrite filter_cons.
    destruct (decide _) as [[? | ?] | _]; [congruence | done | done].
  - intros n Hn. apply Nat.leb_le.
    assert (Hfl : filter (λ c, isdigit c = true ∨ c = 43%N)
                    (replicate n 43%N) = replicate n 43%N).
    { clear. induction n as [|n IH]; [done |]. simpl.
      rewrite filter_cons, IH. rewrite decide_True; [done | by right]. }
    by rewrite Hfl, length_replicate.
Qed.

Lemma X_validate_phone_witness :
  let isdigit := λ c : N, ((48 <=? c) && (c <=? 57))%N in
  (10 ≤ length [43; 55; 57; 49; 54; 49; 50; 51; 52; 53; 54; 55]%N)%nat
  ∧ blank [43; 55; 57; 49; 54; 49; 50; 51; 52; 53; 54; 55]%N = false.
Proof.
  intros isdigit.
  apply (X_validate_phone isdigit); [| reflexivity].
  intros c [H1 H2]%andb_true_iff.
  apply N.leb_le in H1. apply N.leb_le in H2.
  assert (Hc : (c = 48 ∨ c = 49 ∨ c = 50 ∨ c = 51 ∨ c = 52 ∨ c = 53
                ∨ c = 54 ∨ c = 55 ∨ c = 56 ∨ c = 57)%N) by lia.
  destruct Hc as [-> | [-> | [-> | [-> | [-> | [-> | [-> | [-> | [-> | ->]]]]]]]]];
    reflexivity.
Defined.

(** ** The setters of a booking *)

(** X21: on a valid booking the [guest_name], [phone] and [end_time]
    setters keep the booking valid and change only their own attribute,
    and the [start_time] setter does so when the new start is before the
    end, which it does not check itself. *)
Theorem X_booking_setters_keep_valid (self : Booking) :
  valid_booking self →
  (∀ v obj, Booking_.set_guest_name self v = Ok obj →
            valid_booking obj
            ∧ obj = mkBooking (booking_id self) (strip v) (phone self)
                      (table self) (start_time self) (end_time self)
                      (is_active self))
  ∧ (∀ v obj, Booking_.set_phone self v = Ok obj →
              valid_booking obj
              ∧ obj = mkBooking (booking_id self) (guest_name self) (strip v)
                        (table self) (start_time self) (end_time self)
                        (is_active self))
  ∧ (∀ v obj, Booking_.set_end_time self v = Ok obj →
              valid_booking obj
              ∧ obj = mkBooking (booking_id self) (guest_name self)
                        (phone self) (table self) (start_time self) v
                        (is_active self))
  ∧ (∀ now v obj, Booking_.set_start_time now self v = Ok obj →
                  now ≤ v
                  ∧ (v < end_time self → valid_booking obj)
                  ∧ obj = mkBooking (booking_id self) (guest_name self)
                            (phone self) (table self) v (end_time self)
                            (is_active self)).
Proof.
  intros [Hg Hp Ht]. split; [| split; [| split]].
  - intros v obj. unfold Booking_.set_guest_name, Booking_.check_guest_name.
    destruct (blank v) eqn:Hb; [done |]. simpl. intros [= <-].
    split; [| done]. split; simpl; try done. by apply blank_false_trimmed.
  - intros v obj. unfold Booking_.set_phone, Booking_.check_phone.
    destruct (blank v) eqn:Hb; [done |]. simpl. intros [= <-].
    split; [| done]. split; simpl; try done. by apply blank_false_trimmed.
  - intros v obj. unfold Booking_.set_end_time, Booking_.check_end_time.
    destruct (v <=? start_time self) eqn:Hv; [done |]. simpl.
    intros [= <-]. split; [| done]. split; simpl; try done.
    by apply Z.leb_gt.
  - intros now v obj.
    unfold Booking_.set_start_time, Booking_.check_start_time.
    destruct (v <? now) eqn:Hv; [done |]. simpl. intros [= <-].
    split; [by apply Z.ltb_ge |]. split; [| done].
    intros Hlt. by split.
Qed.

Lemma X_booking_setters_keep_valid_witness :
  ∃ obj, Booking_.set_end_time (mkBooking 1 [71%N] [43%N] 0%nat 10 20 true) 30
         = Ok obj
         ∧ valid_booking obj.
Proof.
  assert (Hv : valid_booking (mkBooking 1 [71%N] [43%N] 0%nat 10 20 true)).
  { split; simpl; [| | lia];
      (split; [done |]; split; intros c [= <-]; reflexivity). }
  pose proof (X_booking_setters_keep_valid _ Hv) as (_ & _ & He & _).
  eexists. split; [reflexivity |]. by apply (He 30).
Defined.

(** ** The sample data *)

Lemma create_booking_found w now g p tid s e t :
  Restaurant_.find_table_by_id w tid = Some t →
  Restaurant_._is_table_occupied w t s e = false →
  blank g = false → blank p = false →
  Restaurant_.create_booking w now g p tid s e =
    if s <? now
    then (Raise (ValueError "Start time cannot be in the past"), w)
    else if e <=? s
    then (Raise (ValueError "End time must be after start time"), w)
    else (Ok (Some (length (booking_objs w))),
          mkWorld (table_objs w)
            (booking_objs w
             ++ [mkBooking (_next_booking_id (restaurant w))
                   (strip g) (strip p) t s e true])
            (mkRestaurant (_tables (restaurant w))
               (_bookings (restaurant w) ++ [length (booking_objs w)])
               (_next_table_id (restaurant w))
               (_next_booking_id (restaurant w) + 1))).
Proof.
  intros Hf Hocc Hg Hp. rewrite create_booking_eq, Hf, Hocc.
  unfold Booking_.__init__, Booking_.check_guest_name, Booking_.check_phone,
    Booking_.check_start_time, Booking_.check_end_time.
  rewrite Hg, Hp. simpl. destruct (s <? now); [done |]. simpl.
  by destruct (e <=? s).
Qed.

Lemma wf_add_sample_data now now1 now2 :
  wf (Main._add_sample_data world0 now now1 now2).2.
Proof.
  unfold Main._add_sample_data.
  set (w1 := foldl _ world0 Main.tables_data).
  assert (Hwf1 : wf w1)
    by apply (wf_reachable (map (λ '(n, s), AddTable n s) Main.tables_data)).
  destruct (Utils.datetime_add now (2 * Utils.hour)) as [start1 |];
    [| done].
  destruct (Utils.datetime_add now (3 * Utils.hour)) as [end1 |];
    [| done].
  pose proof (wf_create_booking w1 now1 (Main.lit "Ryan Gosling")
                (Main.lit "+79161234567") 1 start1 end1 Hwf1) as Hwf2.
  destruct (Restaurant_.create_booking w1 _ _ _ _ _ _) as [[r | [msg]] w2];
    [| done].
  destruct (Utils.datetime_add now Utils.hour) as [start2 |]; [| done].
  by apply wf_create_booking.
Qed.

(** X22: [_add_sample_data] on a new restaurant, for a clock reading
    [now] that is a [datetime], adds eight free tables with the ids 1 to
    8, however it ends.  When [now] is at least three hours before the
    end of the year 9999 it returns: if the clock has not passed the
    start of a sample booking at its construction, both bookings are
    made, with the ids 1 and 2, on the tables with the ids 1 and 3; if
    the clock is past the start of the first one no booking is made at
    all, the second one being skipped.  In the last three hours of the
    year 9999 an [OverflowError] leaves the function, the tables being
    added and no booking made. *)
Theorem X_add_sample_data (now now1 now2 : Z) :
  0 ≤ now ≤ Utils.datetime_max →
  let r := Main._add_sample_data world0 now now1 now2 in
  wf r.2
  ∧ _tables (restaurant r.2) = seq 0 8
  ∧ table_id <$> table_objs r.2 = [1; 2; 3; 4; 5; 6; 7; 8]
  ∧ seats <$> table_objs r.2 = [2; 2; 4; 4; 6; 8; 1; 1]
  ∧ Forall (λ obj, is_occupied obj = false) (table_objs r.2)
  ∧ (now + 3 * Utils.hour ≤ Utils.datetime_max →
     r.1 = Main.Returns
     ∧ (now1 ≤ now + 2 * Utils.hour → now2 ≤ now + Utils.hour →
        Restaurant_.bookings r.2 = [0%nat; 1%nat]
        ∧ booking_id <$> booking_objs r.2 = [1; 2]
        ∧ table <$> booking_objs r.2 = [0%nat; 2%nat]
        ∧ start_time <$> booking_objs r.2
          = [now + 2 * Utils.hour; now + Utils.hour]
        ∧ end_time <$> booking_objs r.2
          = [now + 3 * Utils.hour; now + 2 * Utils.hour])
     ∧ (now + 2 * Utils.hour < now1 → booking_objs r.2 = []))
  ∧ (Utils.datetime_max < now + 3 * Utils.hour →
     r.1 = Main.RaisesOverflowError ∧ booking_objs r.2 = []).
Proof.
  intros [Hnow0 Hnow1] r. split; [apply wf_add_sample_data |].
  assert (Hpos : 0 < Utils.hour) by done.
  subst r. unfold Main._add_sample_data.
  set (w1 := foldl _ world0 Main.tables_data).
  destruct (decide (now + 3 * Utils.hour ≤ Utils.datetime_max))
    as [Hin | Hout].
  - rewrite !(datetime_add_Some now (2 * Utils.hour)) by lia.
    rewrite (datetime_add_Some now (3 * Utils.hour)) by lia.
    rewrite (datetime_add_Some now Utils.hour) by lia.
    rewrite (create_booking_found w1 now1 (Main.lit "Ryan Gosling")
               (Main.lit "+79161234567") 1 _ _ 0%nat
               eq_refl eq_refl eq_refl eq_refl).
    rewrite (proj2 (Z.leb_gt (now + 3 * Utils.hour) (now + 2 * Utils.hour)))
      by lia.
    destruct (now + 2 * Utils.hour <? now1) eqn:H1.
    + apply Z.ltb_lt in H1. cbv iota.
      repeat split; try done; try lia. by repeat constructor.
    + apply Z.ltb_ge in H1. cbv iota.
      set (w2 := mkWorld _ _ _).
      rewrite (create_booking_found w2 now2 (Main.lit "Jane Doe")
                 (Main.lit "+79167654321") 3 _ _ 2%nat
                 eq_refl eq_refl eq_refl eq_refl).
      rewrite (proj2 (Z.leb_gt (now + 2 * Utils.hour) (now + Utils.hour)))
        by lia.
      destruct (now + Utils.hour <? now2) eqn:H2.
      * apply Z.ltb_lt in H2.
        repeat split; try done; try lia. by repeat constructor.
      * apply Z.ltb_ge in H2.
        repeat split; try done; try lia. by repeat constructor.
  - rewrite (datetime_add_None now (3 * Utils.hour)) by lia.
    assert (Hres : (match Utils.datetime_add now (2 * Utils.hour) with
                    | Some _ | _ => (Main.RaisesOverflowError, w1)
                    end) = (Main.RaisesOverflowError, w1))
      by (by destruct (Utils.datetime_add now (2 * Utils.hour))).
    rewrite Hres.
    repeat split; try done; try lia. by repeat constructor.
Qed.

Lemma X_add_sample_data_witness :
  Restaurant_.bookings (Main._add_sample_data world0 0 1 2).2
  = [0%nat; 1%nat]
  ∧ (Main._add_sample_data world0 315537890000000000 1 2).1
    = Main.RaisesOverflowError.
Proof.
  split.
  - pose proof (X_add_sample_data 0 1 2) as H.
    destruct H as (_ & _ & _ & _ & _ & Hb & _); [by vm_compute |].
    destruct Hb as (_ & Hb & _); [by vm_compute |].
    apply Hb; by vm_compute.
  - pose proof (X_add_sample_data 315537890000000000 1 2) as H.
    destruct H as (_ & _ & _ & _ & _ & _ & Ho); [by vm_compute |].
    apply Ho. by vm_compute.
Defined.
